(** * typek-clap: tokenizer, flag queries, definition validator and
      subcommand resolution

    A shallow embedding of [args.ts], [errors.ts], [validate.ts] and
    [command.ts], followed by the properties of the specification that were
    checked against it.

    Conventions of the embedding:
    - a JavaScript string is a [string] (a sequence of code units);
    - [undefined] in an optional field is [None]; an optional boolean or an
      optional array that the code only reads through truthiness, [?? []] or
      [?.length] is a [bool] (absent = [false]) or a [list] (absent = [[]]);
    - a function that may [throw] returns a [Result];
    - [handle], the only place where a callback could be invoked, runs in a
      small state-and-exception monad whose state is the log of the callbacks
      invoked so far. *)

From Stdlib Require Import String Ascii List Bool Arith Lia Permutation.
Import ListNotations.
Local Open Scope string_scope.
Local Open Scope list_scope.

(* ================================================================= *)
(** * JavaScript string primitives used by the sources *)

Module Js.

(** [startsWith(s, p)] of [@typek/typek]: [s] begins with [p]. *)
Definition startsWith (s p : string) : bool := String.prefix p s.

(** [s.indexOf(p)]; [None] stands for [-1]. *)
Definition indexOf (s p : string) : option nat := String.index 0 p s.

(** [s.substring(a, b)]: both indices are clamped to the length and swapped
    when they come in the wrong order. *)
Definition substring (s : string) (a b : nat) : string :=
  let a' := Nat.min a (String.length s) in
  let b' := Nat.min b (String.length s) in
  String.substring (Nat.min a' b') (Nat.max a' b' - Nat.min a' b') s.

(** [s.substring(a)]. *)
Definition substringFrom (s : string) (a : nat) : string :=
  substring s a (String.length s).

(** [s[i]]: the one-unit string at index [i], or [undefined]. *)
Definition charAt (s : string) (i : nat) : option ascii := String.get i s.

(** The string a value [s[i]] is converted to when it is used as a search
    string: [undefined] becomes the word itself. *)
Definition toSearchString (c : option ascii) : string :=
  match c with
  | Some c => String c EmptyString
  | None => "undefined"
  end.

(** [s.includes(p)]. *)
Definition includes (s p : string) : bool :=
  match String.index 0 p s with
  | Some _ => true
  | None => false
  end.

(** [x === y] on values that are a one-unit string or [undefined]. *)
Definition charEq (x y : option ascii) : bool :=
  match x, y with
  | Some a, Some b => Ascii.eqb a b
  | None, None => true
  | _, _ => false
  end.

(** [x === y] where [x] is a string and [y] a string or [undefined]. *)
Definition strEqOpt (x : string) (y : option string) : bool :=
  match y with
  | Some y => String.eqb x y
  | None => false
  end.

(** Truthiness of an optional string: set and not empty. *)
Definition truthy (x : option string) : bool :=
  match x with
  | Some s => negb (String.eqb s EmptyString)
  | None => false
  end.

(** [xs.join(sep)]. *)
Definition join (sep : string) (xs : list string) : string :=
  String.concat sep xs.

Definition dquote : string := String "034"%char EmptyString.

Definition hexDigit (n : nat) : ascii :=
  if Nat.ltb n 10 then ascii_of_nat (48 + n) else ascii_of_nat (87 + n).

(** One code unit as [JSON.stringify] writes it inside a string literal. *)
Definition jsonEscape (c : ascii) : string :=
  let n := nat_of_ascii c in
  if Nat.eqb n 34 then "\" ++ dquote
  else if Nat.eqb n 92 then "\\"
  else if Nat.eqb n 8 then "\b"
  else if Nat.eqb n 9 then "\t"
  else if Nat.eqb n 10 then "\n"
  else if Nat.eqb n 12 then "\f"
  else if Nat.eqb n 13 then "\r"
  else if Nat.ltb n 32 then
    "\u00" ++ String (hexDigit (n / 16)) (String (hexDigit (n mod 16)) EmptyString)
  else String c EmptyString.

Fixpoint jsonEscapeAll (s : string) : string :=
  match s with
  | EmptyString => EmptyString
  | String c r => jsonEscape c ++ jsonEscapeAll r
  end.

(** [JSON.stringify(s)] for a string [s]. *)
Definition jsonString (s : string) : string :=
  dquote ++ jsonEscapeAll s ++ dquote.

End Js.

(* ================================================================= *)
(** * errors.ts *)

Module Errors.

Inductive ClapErrorKind : Type :=
| LibraryBug
| DeveloperInduced
| InvalidUserInput.

Inductive ClapErrorReason : Type :=
| Unreachable
| BadConfiguration
| SubcommandLongFlagValue.

(** The three concrete subclasses of [ClapError]. *)
Inductive ClapError : Type :=
| ClapUnreachableError (message : string)
| ClapConfigurationError (message : string)
| ClapSubcommandLongFlagValueError (flag value : string).

Definition kind (e : ClapError) : ClapErrorKind :=
  match e with
  | ClapUnreachableError _ => LibraryBug
  | ClapConfigurationError _ => DeveloperInduced
  | ClapSubcommandLongFlagValueError _ _ => InvalidUserInput
  end.

Definition reason (e : ClapError) : ClapErrorReason :=
  match e with
  | ClapUnreachableError _ => Unreachable
  | ClapConfigurationError _ => BadConfiguration
  | ClapSubcommandLongFlagValueError _ _ => SubcommandLongFlagValue
  end.

Definition message (e : ClapError) : string :=
  match e with
  | ClapUnreachableError m => m
  | ClapConfigurationError m => m
  | ClapSubcommandLongFlagValueError flag value =>
      "The flag " ++ flag
      ++ " cannot take a value, because it is a subcommand. Value provided: "
      ++ value
  end.

(** Everything the modelled code throws. *)
Inductive Exn : Type :=
| TypeError (message : string)
| Clap (e : ClapError).

Inductive Result (A : Type) : Type :=
| Ok (a : A)
| Throw (e : Exn).

Arguments Ok {A} a.
Arguments Throw {A} e.

Definition bind {A B : Type} (m : Result A) (k : A -> Result B) : Result B :=
  match m with
  | Ok a => k a
  | Throw e => Throw e
  end.

End Errors.

Import Errors.

Declare Scope result_scope.
Delimit Scope result_scope with result.
Notation "m ;;; k" := (Errors.bind m (fun _ => k))
  (at level 61, right associativity) : result_scope.

(* ================================================================= *)
(** * args.ts *)

Module Args.

(** [ParsedArgument]: the tagged union of the four object shapes. *)
Inductive ParsedArgument : Type :=
| Text (text : string)
| Long (long : string) (argument : option string)
| Short (short : string)
| EndOfOptions.

(** The two mutable locals of [parseArguments]. *)
Record ParseState : Type := mkParseState {
  parsedArgs : list ParsedArgument;
  eoo : bool
}.

Definition push (st : ParseState) (p : ParsedArgument) : ParseState :=
  mkParseState (parsedArgs st ++ [p]) (eoo st).

(** The inner function [parse]. *)
Definition parse (st : ParseState) (arg : string) : ParseState :=
  if eoo st then push st (Text arg)
  else if String.eqb arg "--" then
    push (mkParseState (parsedArgs st) true) EndOfOptions
  else if Js.startsWith arg "--" then
    match Js.indexOf arg "=" with
    | None => push st (Long arg None)
    | Some eq =>
        let long := Js.substring arg 0 eq in
        let argument := Js.substring arg (eq + 1) (String.length arg) in
        push st (Long long (Some argument))
    end
  else if Js.startsWith arg "-" then push st (Short arg)
  else push st (Text arg).

(** The object returned by [parseArguments]; [has] and [get] are the
    closures over [parsed] defined below, [available] only reports the host
    environment. *)
Record Arguments : Type := mkArguments {
  raw : list string;
  parsed : list ParsedArgument
}.

Definition parseArguments (rawArgs : list string) : Arguments :=
  let st := fold_left parse rawArgs (mkParseState [] false) in
  mkArguments rawArgs (parsedArgs st).

(** The destructuring at the head of [has] and [get]: which of the two
    parameters is the long and which the short name. *)
Definition flagSpec (a : string) (b : option string)
  : Result (option string * option string) :=
  if Js.startsWith a "--" then Ok (Some a, b)
  else if Js.startsWith a "-" then Ok (None, Some a)
  else Throw (TypeError "A flag must start with a dash.").

Definition hasLong (long : option string) (arg : ParsedArgument) : bool :=
  match arg with
  | Long l _ => Js.strEqOpt l long
  | _ => false
  end.

Definition hasShort (short : option string) (arg : ParsedArgument) : bool :=
  match arg, short with
  | Short s, Some sh =>
      Js.truthy short && Js.includes s (Js.toSearchString (Js.charAt sh 1))
  | _, _ => false
  end.

Fixpoint hasLoop (long short : option string) (args : list ParsedArgument)
  : bool :=
  match args with
  | [] => false
  | arg :: rest =>
      if hasLong long arg then true
      else if hasShort short arg then true
      else hasLoop long short rest
  end.

Definition has (args : Arguments) (a : string) (b : option string)
  : Result bool :=
  Errors.bind (flagSpec a b) (fun '(long, short) =>
    Ok (hasLoop long short (parsed args))).

(** [short?.[1]]. *)
Definition shortLetter (short : option string) : option ascii :=
  match short with
  | Some sh => Js.charAt sh 1
  | None => None
  end.

(** One iteration of the loop of [get] at index [i]; [value] is the running
    result. *)
Definition getStep (long short : option string)
  (parsedArgs : list ParsedArgument) (value : option string)
  (entry : nat * ParsedArgument) : option string :=
  let '(i, arg) := entry in
  match arg with
  | Long l argument =>
      if Js.strEqOpt l long then
        match argument with
        | Some v => Some v
        | None =>
            match nth_error parsedArgs (i + 1) with
            | Some (Text t) => Some t
            | _ => Some EmptyString
            end
        end
      else value
  | Short s =>
      if Js.charEq (Js.charAt s 1) (shortLetter short) then
        Some (Js.substring s 2 (String.length s))
      else value
  | _ => value
  end.

(** [enumerate(xs)] of [@typek/typek]: the entries paired with their
    indices. *)
Definition enumerate {A : Type} (xs : list A) : list (nat * A) :=
  combine (seq 0 (List.length xs)) xs.

Definition get (args : Arguments) (a : string) (b : option string)
  : Result (option string) :=
  Errors.bind (flagSpec a b) (fun '(long, short) =>
    Ok (fold_left (getStep long short (parsed args))
          (enumerate (parsed args)) None)).

End Args.

(* ================================================================= *)
(** * command.ts: the declared interfaces *)

Module Definitions.

(** A callback [() => void] is opaque to the library; the embedding only
    needs to tell callbacks apart. *)
Definition Action : Type := nat.

(** [CommandDefinition], [SubcommandDefinition] and [CommandOptions] as one
    structural type: an object of the narrower interface has the fields of
    the wider one absent.  Only the fields the code reads are kept, with
    [alias] for reference. *)
Unset Elimination Schemes.
Inductive CommandDefinition : Type := mkCommand {
  name : string;
  action : option Action;
  subcommandRequired : bool;
  subcommands : list CommandDefinition;
  isDefault : bool;
  alias : list string;
  longFlag : option string;
  longFlagAliases : list string;
  shortFlag : option string;
  shortFlagAliases : list string;
  disallowWithoutFlag : bool
}.
Set Elimination Schemes.

Definition SubcommandDefinition : Type := CommandDefinition.
Definition CommandOptions : Type := CommandDefinition.

(** The object literal [{ name, shortFlag }]. *)
Definition nameAndShortFlag (n s : string) : SubcommandDefinition :=
  mkCommand n None false [] false [] None [] (Some s) [] false.

(** [d] is [c] or one of its nested subcommands. *)
Inductive inTree (c : CommandDefinition) : CommandDefinition -> Prop :=
| inTree_here : inTree c c
| inTree_sub s d : In s (subcommands c) -> inTree s d -> inTree c d.

End Definitions.

Import Args Definitions.

(* ================================================================= *)
(** * validate.ts: the runtime validator *)

Module Validate.

Local Open Scope result_scope.

Definition configurationError (msg : string) : Result unit :=
  Throw (Clap (ClapConfigurationError msg)).

Definition subcommandRequiredMessage (n : string) : string :=
  "In command `" ++ n
  ++ "`, a subcommand is required, yet no subcommands are specified.".

Definition validateSubcommandRequired (x : CommandDefinition) : Result unit :=
  if subcommandRequired x && (List.length (subcommands x) =? 0)%nat
  then configurationError (subcommandRequiredMessage (name x))
  else Ok tt.

Definition multipleDefaultMessage (n : string) (defaultNames : list string)
  : string :=
  "In command `" ++ n
  ++ "`, multiple subcommands are specified as default: "
  ++ Js.join ", " defaultNames.

Definition defaultNames (x : CommandDefinition) : list string :=
  map name (filter isDefault (subcommands x)).

Definition validateMultipleDefault (x : CommandDefinition) : Result unit :=
  if (1 <? List.length (defaultNames x))%nat
  then configurationError (multipleDefaultMessage (name x) (defaultNames x))
  else Ok tt.

Definition disallowWithoutFlagMessage (n : string) : string :=
  "In subcommand `" ++ n
  ++ "`, calling without flag is disallowed, yet neither `longFlag` nor `shortFlag` are specified.".

Definition validateDisallowWithoutFlag (x : SubcommandDefinition)
  : Result unit :=
  if disallowWithoutFlag x
     && negb (Js.truthy (longFlag x) || Js.truthy (shortFlag x))
  then configurationError (disallowWithoutFlagMessage (name x))
  else Ok tt.

Definition shortFlagMessage (n flag : string) : string :=
  "In subcommand `" ++ n ++ "`, a short flag `" ++ flag
  ++ "` was specified. Only short flags consisting of single letter are supported.".

Definition validateShortFlagSingleChar (x : SubcommandDefinition)
  : Result unit :=
  match shortFlag x with
  | Some f =>
      if Js.truthy (Some f) && negb (String.length f =? 1)%nat
      then configurationError (shortFlagMessage (name x) f)
      else Ok tt
  | None => Ok tt
  end.

(** [for (const x of xs) f(x)] for an [f] that may throw. *)
Definition forEach {A : Type} (f : A -> Result unit)
  : list A -> Result unit :=
  fix go (xs : list A) : Result unit :=
    match xs with
    | [] => Ok tt
    | x :: rest => f x ;;; go rest
    end.

Definition validateShortFlagAliasesSingleChar (x : SubcommandDefinition)
  : Result unit :=
  forEach (fun s => validateShortFlagSingleChar (nameAndShortFlag (name x) s))
          (shortFlagAliases x).

Inductive FlagType : Type := long | short.

Definition flagTypeName (t : FlagType) : string :=
  match t with long => "long" | short => "short" end.

Definition flagOf (t : FlagType) (x : SubcommandDefinition) : option string :=
  match t with long => longFlag x | short => shortFlag x end.

Definition flagAliasesOf (t : FlagType) (x : SubcommandDefinition)
  : list string :=
  match t with long => longFlagAliases x | short => shortFlagAliases x end.

Definition flagAliasesWithoutFlagMessage (n : string) (t : FlagType)
  : string :=
  "In subcommand `" ++ n ++ "`, an alias for a " ++ flagTypeName t
  ++ " flag has been provided while `" ++ flagTypeName t
  ++ "Flag` is not specified.".

Definition validateFlagAliasesWithoutFlag (x : SubcommandDefinition)
  (t : FlagType) : Result unit :=
  if negb (List.length (flagAliasesOf t x) =? 0)%nat
     && negb (Js.truthy (flagOf t x))
  then configurationError (flagAliasesWithoutFlagMessage (name x) t)
  else Ok tt.

(** The checks [validateSubcommandDefinition] runs after
    [validateCommandDefinition]. *)
Definition validateSubcommandOwn (x : SubcommandDefinition) : Result unit :=
  validateDisallowWithoutFlag x ;;;
  validateShortFlagSingleChar x ;;;
  validateShortFlagAliasesSingleChar x ;;;
  validateFlagAliasesWithoutFlag x long ;;;
  validateFlagAliasesWithoutFlag x short.

(** [validateCommandDefinition], with [validateSubcommands] and the body of
    [validateSubcommandDefinition] unfolded at the recursive call (the three
    functions are mutually recursive in the source). *)
Fixpoint validateCommandDefinition (x : CommandDefinition) : Result unit :=
  validateSubcommandRequired x ;;;
  validateMultipleDefault x ;;;
  forEach (fun s => validateCommandDefinition s ;;; validateSubcommandOwn s)
          (subcommands x).

Definition validateSubcommandDefinition (x : SubcommandDefinition)
  : Result unit :=
  validateCommandDefinition x ;;; validateSubcommandOwn x.

Definition validateSubcommands (x : CommandDefinition) : Result unit :=
  forEach validateSubcommandDefinition (subcommands x).

Definition validateCommandOptions (x : CommandOptions) : Result unit :=
  validateCommandDefinition x.

End Validate.

(* ================================================================= *)
(** * command.ts: construction and resolution *)

Module Command.

Import Args Validate.

(** The object [matchSubcommand] returns. *)
Record Match : Type := mkMatch {
  sub : option SubcommandDefinition;
  nextArg : option ParsedArgument
}.

(** [s === argument.short[1]] for a declared flag [s]. *)
Definition isFirstShortFlag (argumentShort : string) (s : string) : bool :=
  match Js.charAt argumentShort 1 with
  | Some c => String.eqb s (String c EmptyString)
  | None => false
  end.

(** The three [if]s of the loop body of [matchSubcommand] for one
    subcommand: [None] when none fires, otherwise what the body returns or
    throws.  The tests ["text" in argument], ["long" in argument] and
    ["short" in argument] are the cases of the token. *)
Definition matchOne (s : SubcommandDefinition) (argument : ParsedArgument)
  : option (Result Match) :=
  match argument with
  | Text t =>
      if negb (disallowWithoutFlag s) && String.eqb t (name s)
      then Some (Ok (mkMatch (Some s) None))
      else None
  | Long l a =>
      match longFlag s with
      | Some f =>
          if existsb (fun e => String.eqb e (Js.substringFrom l 2))
                     (f :: longFlagAliases s)
          then
            match a with
            | Some v => Some (Throw (Clap (ClapSubcommandLongFlagValueError l v)))
            | None => Some (Ok (mkMatch (Some s) None))
            end
          else None
      | None => None
      end
  | Short sh =>
      match shortFlag s with
      | Some f =>
          if existsb (isFirstShortFlag sh) (f :: shortFlagAliases s)
          then
            if (String.length sh =? 2)%nat
            then Some (Ok (mkMatch (Some s) None))
            else Some (Ok (mkMatch (Some s)
                             (Some (Short ("-" ++ Js.substringFrom sh 2)))))
          else None
      | None => None
      end
  | EndOfOptions => None
  end.

(** The [for] loop of [matchSubcommand]: the first subcommand for which an
    [if] fires decides. *)
Fixpoint matchLoop (subs : list SubcommandDefinition)
  (argument : ParsedArgument) : option (Result Match) :=
  match subs with
  | [] => None
  | s :: rest =>
      match matchOne s argument with
      | Some r => Some r
      | None => matchLoop rest argument
      end
  end.

Definition matchSubcommand (command : CommandDefinition)
  (argument : ParsedArgument) : Result Match :=
  match matchLoop (subcommands command) argument with
  | Some r => r
  | None =>
      match find isDefault (subcommands command) with
      | Some s => Ok (mkMatch (Some s) (Some argument))
      | None => Ok (mkMatch None (Some argument))
      end
  end.

(** [JSON.stringify(arg)] for a token. *)
Definition JSON_stringify (arg : ParsedArgument) : string :=
  match arg with
  | Text t => "{" ++ Js.jsonString "text" ++ ":" ++ Js.jsonString t ++ "}"
  | Long l None => "{" ++ Js.jsonString "long" ++ ":" ++ Js.jsonString l ++ "}"
  | Long l (Some v) =>
      "{" ++ Js.jsonString "long" ++ ":" ++ Js.jsonString l ++ ","
      ++ Js.jsonString "argument" ++ ":" ++ Js.jsonString v ++ "}"
  | Short s => "{" ++ Js.jsonString "short" ++ ":" ++ Js.jsonString s ++ "}"
  | EndOfOptions =>
      "{" ++ Js.jsonString "endOfOptions" ++ ":" ++ Js.jsonString "--" ++ "}"
  end.

(** ** The effects of [handle]: callbacks invoked, and exceptions *)

Definition Log : Type := list Action.

Definition M (A : Type) : Type := Log -> Log * Result A.

Definition ret {A : Type} (a : A) : M A := fun log => (log, Ok a).

Definition throw {A : Type} (e : Exn) : M A := fun log => (log, Throw e).

Definition bindM {A B : Type} (m : M A) (k : A -> M B) : M B :=
  fun log =>
    match m log with
    | (log', Ok a) => k a log'
    | (log', Throw e) => (log', Throw e)
    end.

Definition lift {A : Type} (r : Result A) : M A := fun log => (log, r).

(** Calling a callback [f()].  [handle] has no call site for it: it is here
    to say what the log records. *)
Definition invoke (f : Action) : M unit := fun log => (log ++ [f], Ok tt).

(** The object [createCommand] returns; [handle] below is its method. *)
Record Command : Type := mkCommandObject {
  options : CommandOptions
}.

Definition createCommand (opts : CommandOptions) : Result Command :=
  Errors.bind (validateCommandOptions opts) (fun _ =>
    Ok (mkCommandObject opts)).

Definition unreachableMessage (arg : ParsedArgument) : string :=
  "Unexpected type of argument: " ++ JSON_stringify arg.

(** The body of the [while] loop, after [args.shift()] gave [arg]. *)
Definition loopBody (command : CommandOptions) (arg : ParsedArgument)
  : M unit :=
  bindM (lift (matchSubcommand command arg)) (fun m =>
  bindM (match sub m with
         | Some _ => ret tt        (* [if (sub) { }] *)
         | None => ret tt
         end) (fun _ =>
  throw (Clap (ClapUnreachableError (unreachableMessage arg))))).

(** [while (args.length > 0)]: [args] is the local copy of the queue and
    [command] the local that starts at [options]; the body never assigns
    either, apart from the [shift]. *)
Fixpoint handleLoop (command : CommandOptions) (args : list ParsedArgument)
  : M unit :=
  match args with
  | [] => ret tt
  | arg :: args' =>
      bindM (loopBody command arg) (fun _ => handleLoop command args')
  end.

(** [handle(args_)]: [inr] is the overload taking raw strings
    ([Array.isArray]), [inl] the one taking an [Arguments] object. *)
Definition handle (c : Command) (args_ : Arguments + list string) : M unit :=
  let args_ :=
    match args_ with
    | inr rawArgs => parseArguments rawArgs
    | inl a => a
    end in
  handleLoop (options c) (parsed args_).

(** Running [handle] from a state in which no callback was invoked yet. *)
Definition run {A : Type} (m : M A) : Log * Result A := m [].

End Command.

Import Validate Command.

(* ================================================================= *)
(** * The specification's own wording, for comparison with the code *)

Module Spec.

(** ** Tokenizer (section 4.1) *)

(** Splitting a string at its first [=]: the part before and the part
    after, when there is one. *)
Fixpoint splitAtEquals (s : string) : option (string * string) :=
  match s with
  | EmptyString => None
  | String c r =>
      if Ascii.eqb c "="%char then Some (EmptyString, r)
      else
        match splitAtEquals r with
        | Some (n, v) => Some (String c n, v)
        | None => None
        end
  end.

(** The five rules, in order; [seen] is the end-of-options flag. *)
Definition classify (seen : bool) (s : string) : ParsedArgument :=
  if seen then Text s
  else if String.eqb s "--" then EndOfOptions
  else if String.prefix "--" s then
    match splitAtEquals s with
    | None => Long s None
    | Some (n, v) => Long n (Some v)
    end
  else if String.prefix "-" s then Short s
  else Text s.

Fixpoint tokenize (seen : bool) (raw : list string) : list ParsedArgument :=
  match raw with
  | [] => []
  | s :: rest => classify seen s :: tokenize (seen || String.eqb s "--") rest
  end.

(** End-of-options has been seen before position [i]: one of the strings
    before it is the marker. *)
Definition endOfOptionsSeen (raw : list string) (i : nat) : bool :=
  existsb (fun s => String.eqb s "--") (firstn i raw).

(** ** Flag queries (section 4.2) *)

(** The letters of a short-flag bundle: everything after the dash. *)
Definition letters (sh : string) : string :=
  match sh with
  | String _ r => r
  | EmptyString => EmptyString
  end.

Definition occursIn (c : ascii) (s : string) : Prop :=
  In c (list_ascii_of_string s).

(** The short name of the one-letter flag [c]. *)
Definition shortName (c : ascii) : string :=
  String "-"%char (String c EmptyString).

(** A well-formed flag spec as the two parameters [a] and [b] of [has] and
    [get], with the long name and the short letter it denotes: one long
    name, one short name, or a (long, short) pair.  A long name starts with
    two dashes; a short name is a dash and one character, and that
    character is not a dash (a string starting with two dashes is taken as a
    long name). *)
Inductive wellFormedSpec
  : string -> option string -> option string -> option ascii -> Prop :=
| wf_long l :
    String.prefix "--" l = true ->
    wellFormedSpec l None (Some l) None
| wf_short c :
    c <> "-"%char ->
    wellFormedSpec (shortName c) None None (Some c)
| wf_pair l c :
    String.prefix "--" l = true ->
    c <> "-"%char ->
    wellFormedSpec l (Some (shortName c)) (Some l) (Some c).

(** The flag is present among the tokens: some long-flag token has the long
    name, or some bundle has the short letter among its letters. *)
Definition flagPresent (toks : list ParsedArgument) (long : option string)
  (letter : option ascii) : Prop :=
  (exists l v, In (Long l v) toks /\ long = Some l)
  \/ (exists sh c, In (Short sh) toks /\ letter = Some c
                   /\ occursIn c (letters sh)).

(** What one token contributes to [get]; [next] is the token after it. *)
Definition contribution (long : option string) (letter : option ascii)
  (tok : ParsedArgument) (next : option ParsedArgument) : option string :=
  match tok with
  | Long l v =>
      if Js.strEqOpt l long then
        match v, next with
        | Some v, _ => Some v
        | None, Some (Text t) => Some t
        | None, _ => Some EmptyString
        end
      else None
  | Short sh =>
      match letter, letters sh with
      | Some c, String c' rest =>
          if Ascii.eqb c' c then Some rest else None
      | _, _ => None
      end
  | _ => None
  end.

(** The contribution of the last contributing token, if any. *)
Fixpoint lastContribution (long : option string) (letter : option ascii)
  (toks : list ParsedArgument) : option string :=
  match toks with
  | [] => None
  | tok :: rest =>
      match lastContribution long letter rest with
      | Some v => Some v
      | None => contribution long letter tok (hd_error rest)
      end
  end.

(** ** Resolution (section 4.4) *)

(** Rule 2b: the name of a long-flag token, minus its two dashes, is the
    subcommand's [longFlag] or one of its [longFlagAliases]. *)
Definition longSelects (s : SubcommandDefinition) (l : string) : Prop :=
  longFlag s = Some (Js.substringFrom l 2)
  \/ In (Js.substringFrom l 2) (longFlagAliases s).

(** ** Validation (section 4.3) *)

(** [s] is declared as a subcommand somewhere in the tree of [root]. *)
Definition subcommandIn (root : CommandDefinition) (s : SubcommandDefinition)
  : Prop :=
  exists parent, inTree root parent /\ In s (subcommands parent).

(** The depth-first walk of the validator gets from [c] to the validation
    of [d] without raising: on the way down every command passes its own
    two checks and every earlier sibling validates. *)
Inductive walksTo : CommandDefinition -> CommandDefinition -> Prop :=
| walksTo_here c : walksTo c c
| walksTo_sub c pre s post d :
    subcommands c = pre ++ s :: post ->
    validateSubcommandRequired c = Ok tt ->
    validateMultipleDefault c = Ok tt ->
    Forall (fun p => validateSubcommandDefinition p = Ok tt) pre ->
    walksTo s d ->
    walksTo c d.

(** The walk gets from [root] to the validation of the subcommand [s]
    declared under some command of the tree. *)
Definition walksToSubcommand (root : CommandDefinition)
  (s : SubcommandDefinition) : Prop :=
  exists parent pre post,
    walksTo root parent
    /\ subcommands parent = pre ++ s :: post
    /\ validateSubcommandRequired parent = Ok tt
    /\ validateMultipleDefault parent = Ok tt
    /\ Forall (fun p => validateSubcommandDefinition p = Ok tt) pre.

(** ... and on to the check of [s]'s [shortFlag]: the subtree of [s] and
    its [disallowWithoutFlag] rule pass. *)
Definition reachesShortFlagCheck (root : CommandDefinition)
  (s : SubcommandDefinition) : Prop :=
  walksToSubcommand root s
  /\ validateCommandDefinition s = Ok tt
  /\ validateDisallowWithoutFlag s = Ok tt.

(** ... and on to the check of the alias that follows the aliases [before]:
    the [shortFlag] and the aliases before pass. *)
Definition reachesAliasCheck (root : CommandDefinition)
  (s : SubcommandDefinition) (before : list string) : Prop :=
  reachesShortFlagCheck root s
  /\ validateShortFlagSingleChar s = Ok tt
  /\ Forall (fun a =>
               validateShortFlagSingleChar (nameAndShortFlag (name s) a)
               = Ok tt) before.

(** A result of the validator that, if it is an error, is a configuration
    error. *)
Definition configOnly (r : Result unit) : Prop :=
  forall e, r = Throw e -> exists msg, e = Clap (ClapConfigurationError msg).

(** The test the long-flag [if] of [matchSubcommand] performs. *)
Definition longSelectsb (s : SubcommandDefinition) (l : string) : bool :=
  match longFlag s with
  | Some f =>
      existsb (fun e => String.eqb e (Js.substringFrom l 2))
              (f :: longFlagAliases s)
  | None => false
  end.

(** What that [if] returns or throws once its test succeeded. *)
Definition longOutcome (s : SubcommandDefinition) (l : string)
  (a : option string) : Result Match :=
  match a with
  | Some v => Throw (Clap (ClapSubcommandLongFlagValueError l v))
  | None => Ok (mkMatch (Some s) None)
  end.

(** The tokens [handle] works on. *)
Definition tokensOf (args_ : Arguments + list string) : list ParsedArgument :=
  match args_ with
  | inr rawArgs => parsed (parseArguments rawArgs)
  | inl a => parsed a
  end.

End Spec.

(* ================================================================= *)
(** * Command trees used as concrete inputs *)

Module Examples.

(** A command with nothing but a name and subcommands. *)
Definition plain (n : string) (subs : list SubcommandDefinition)
  : CommandDefinition :=
  mkCommand n None false subs false [] None [] None [] false.

(** [{ name: "greet", action }]. *)
Definition greet : CommandOptions :=
  mkCommand "greet" (Some 1) false [] false [] None [] None [] false.

(** [{ name: "build", action }]. *)
Definition build : SubcommandDefinition :=
  mkCommand "build" (Some 2) false [] false [] None [] None [] false.

(** [{ name: "tool", subcommandRequired: true, subcommands: [build] }]. *)
Definition strict : CommandOptions :=
  mkCommand "tool" None true [build] false [] None [] None [] false.

(** [{ name: "build", action, longFlag: "build", longFlagAliases: ["make"] }]. *)
Definition buildFlag : SubcommandDefinition :=
  mkCommand "build" (Some 2) false [] false [] (Some "build") ["make"]
            None [] false.

(** [{ name: "tool", action, subcommands: [buildFlag] }]. *)
Definition flagged : CommandOptions :=
  mkCommand "tool" (Some 1) false [buildFlag] false [] None [] None [] false.

(** [{ name: "b", action, shortFlag: "b" }]. *)
Definition subB : SubcommandDefinition :=
  mkCommand "b" (Some 3) false [] false [] None [] (Some "b") [] false.

(** [{ name: "a", action, shortFlag: "a", subcommands: [subB] }]. *)
Definition subA : SubcommandDefinition :=
  mkCommand "a" (Some 2) false [subB] false [] None [] (Some "a") [] false.

(** [{ name: "tool", action, subcommands: [subA, subB] }]. *)
Definition bundled : CommandOptions :=
  mkCommand "tool" (Some 1) false [subA; subB] false [] None [] None [] false.

(** [{ name: n, isDefault: true }]. *)
Definition default (n : string) : SubcommandDefinition :=
  mkCommand n None false [] true [] None [] None [] false.

(** [{ name: n, shortFlag: f }]. *)
Definition withShortFlag (n f : string) : SubcommandDefinition :=
  mkCommand n None false [] false [] None [] (Some f) [] false.

(** [{ name: "y", subcommands: [default "d1", default "d2"] }]. *)
Definition twoDefaults : SubcommandDefinition :=
  plain "y" [default "d1"; default "d2"].

(** A tree whose first subcommand has a two-letter short flag and whose
    second subcommand has two default subcommands. *)
Definition shortFlagFirst : CommandOptions :=
  plain "app" [withShortFlag "x" "xy"; twoDefaults].

(** [{ name: "d1", isDefault: true, shortFlag: "xy" }]. *)
Definition defaultWithShortFlag : SubcommandDefinition :=
  mkCommand "d1" None false [] true [] None [] (Some "xy") [] false.

(** A tree with two default subcommands at the root, the first of which has
    a two-letter short flag. *)
Definition defaultsFirst : CommandOptions :=
  plain "app" [defaultWithShortFlag; default "d2"].

(** [{ name: "s", shortFlag: "s", shortFlagAliases: ["t", "uv"] }]. *)
Definition badAlias : SubcommandDefinition :=
  mkCommand "s" None false [] false [] None [] (Some "s") ["t"; "uv"] false.

(** A subcommand [s] whose [shortFlag] is the empty string and a subcommand
    [t] whose only short-flag alias is the empty string. *)
Definition emptyShortFlags : CommandOptions :=
  plain "app"
    [withShortFlag "s" EmptyString;
     mkCommand "t" None false [] false [] None [] (Some "t") [EmptyString]
               false].

End Examples.

(* ================================================================= *)
(** * Vocabulary for the further properties of the code *)

Module Behaviour.

Import Spec.

(** ** Tokens *)

(** The raw string a token stands for. *)
Definition untokenize (tok : ParsedArgument) : string :=
  match tok with
  | Text t => t
  | Long l None => l
  | Long l (Some v) => l ++ "=" ++ v
  | Short sh => sh
  | EndOfOptions => "--"
  end.

(** The shapes the type [ParsedArgument] declares for the two flag fields: a
    long name starts with two dashes, a bundle with one dash and not two. *)
Definition wellShaped (tok : ParsedArgument) : Prop :=
  match tok with
  | Long l _ => String.prefix "--" l = true
  | Short sh => String.prefix "-" sh = true /\ String.prefix "--" sh = false
  | _ => True
  end.

(** The raw string is the end-of-options marker. *)
Definition isMarker (s : string) : bool := String.eqb s "--".

(** A token neither [has] nor [get] reacts to. *)
Definition inert (tok : ParsedArgument) : bool :=
  match tok with
  | Text _ | EndOfOptions => true
  | _ => false
  end.

(** ** The rules of the validator, as conditions on the declarations *)

Definition commandRules (c : CommandDefinition) : Prop :=
  (subcommandRequired c = true -> subcommands c <> [])
  /\ List.length (filter isDefault (subcommands c)) <= 1.

(** A short flag the runtime check lets through: empty, or one character. *)
Definition shortFlagPasses (f : string) : Prop :=
  f = EmptyString \/ String.length f = 1.

Definition subcommandRules (s : SubcommandDefinition) : Prop :=
  (disallowWithoutFlag s = true ->
   Js.truthy (longFlag s) = true \/ Js.truthy (shortFlag s) = true)
  /\ (forall f, shortFlag s = Some f -> shortFlagPasses f)
  /\ (forall a, In a (shortFlagAliases s) -> shortFlagPasses a)
  /\ (longFlagAliases s <> [] -> Js.truthy (longFlag s) = true)
  /\ (shortFlagAliases s <> [] -> Js.truthy (shortFlag s) = true).

(** The walk gets from [root] to the two alias-without-flag checks of the
    subcommand [s]: everything [validateSubcommandDefinition] runs on [s]
    before them passes, and for the check of the short aliases the check of
    the long ones passes too. *)
Definition reachesAliasesWithoutFlagCheck (root : CommandDefinition)
  (s : SubcommandDefinition) (t : FlagType) : Prop :=
  reachesShortFlagCheck root s
  /\ validateShortFlagSingleChar s = Ok tt
  /\ validateShortFlagAliasesSingleChar s = Ok tt
  /\ match t with
     | long => True
     | short => validateFlagAliasesWithoutFlag s long = Ok tt
     end.

(** ** Subcommand matching *)

(** The test of the text [if] of [matchSubcommand], and what it means. *)
Definition textSelectsb (s : SubcommandDefinition) (t : string) : bool :=
  negb (disallowWithoutFlag s) && String.eqb t (name s).

Definition textSelects (s : SubcommandDefinition) (t : string) : Prop :=
  name s = t /\ disallowWithoutFlag s = false.

(** The test of the short-flag [if], and what it means for a bundle whose
    first letter is [c]. *)
Definition shortSelectsb (s : SubcommandDefinition) (sh : string) : bool :=
  match shortFlag s with
  | Some f => existsb (isFirstShortFlag sh) (f :: shortFlagAliases s)
  | None => false
  end.

Definition shortSelects (s : SubcommandDefinition) (c : ascii) : Prop :=
  shortFlag s = Some (String c EmptyString)
  \/ In (String c EmptyString) (shortFlagAliases s).

(** The bundle made of a dash, the letter [c] and the letters [rest]. *)
Definition bundle (c : ascii) (rest : string) : string :=
  String "-"%char (String c rest).

(** What the short-flag [if] hands back as next argument. *)
Definition remainder (rest : string) : option ParsedArgument :=
  match rest with
  | EmptyString => None
  | _ => Some (Short (String "-"%char rest))
  end.

(** What [matchSubcommand] returns after its loop found nothing. *)
Definition fallback (command : CommandDefinition) (arg : ParsedArgument)
  : Match :=
  match find isDefault (subcommands command) with
  | Some s => mkMatch (Some s) (Some arg)
  | None => mkMatch None (Some arg)
  end.

End Behaviour.

(* ================================================================= *)
(** * Further command trees used as concrete inputs *)

Module Samples.

Import Examples.

(** [{ name: "sub", subcommandRequired: true }]. *)
Definition needsSub : SubcommandDefinition :=
  mkCommand "sub" None true [] false [] None [] None [] false.

(** A subcommand that disallows calling without a flag and whose only flag is
    an empty short flag. *)
Definition flagless : SubcommandDefinition :=
  mkCommand "s" None false [] false [] None [] (Some EmptyString) [] true.

(** [{ name: "s", longFlag: "sync", longFlagAliases: ["sy"],
       shortFlagAliases: ["y"] }]. *)
Definition aliasOnly : SubcommandDefinition :=
  mkCommand "s" None false [] false [] (Some "sync") ["sy"] None ["y"] false.

(** [{ name: "run", isDefault: true, disallowWithoutFlag: true,
       shortFlag: "r" }]. *)
Definition runSub : SubcommandDefinition :=
  mkCommand "run" (Some 4) false [] true [] None [] (Some "r") [] true.

(** [{ name: "test", alias: ["t"], shortFlag: "t",
       shortFlagAliases: ["T"] }]. *)
Definition testSub : SubcommandDefinition :=
  mkCommand "test" (Some 5) false [] false ["t"] None [] (Some "t") ["T"] false.

(** [{ name: "tool", subcommands: [runSub, testSub] }]. *)
Definition tool : CommandOptions := plain "tool" [runSub; testSub].

End Samples.

(* ================================================================= *)
(** * Properties of the tokenizer *)

Module ArgsFacts.

Import Spec.

Lemma prefix_empty (s : string) : String.prefix EmptyString s = true.
Proof. destruct s; reflexivity. Qed.

Lemma index_equals_cons (c : ascii) (r : string) :
  String.index 0 "=" (String c r)
  = if Ascii.eqb c "="%char then Some 0
    else option_map S (String.index 0 "=" r).
Proof.
  cbn [String.index String.prefix].
  destruct (ascii_dec "=" c) as [E | N].
  - subst c. rewrite prefix_empty. reflexivity.
  - destruct (Ascii.eqb_spec c "="%char) as [E | _]; [congruence |].
    destruct (String.index 0 "=" r); reflexivity.
Qed.

Lemma substring_whole (s : string) :
  String.substring 0 (String.length s) s = s.
Proof. induction s as [| c r IH]; cbn; [reflexivity | now rewrite IH]. Qed.

Lemma js_substring_range (s : string) (a b : nat) :
  a <= b -> b <= String.length s ->
  Js.substring s a b = String.substring a (b - a) s.
Proof.
  intros Hab Hb. unfold Js.substring.
  rewrite (Nat.min_l a) by lia. rewrite (Nat.min_l b) by lia.
  rewrite (Nat.min_l a b) by lia. rewrite (Nat.max_r a b) by lia.
  reflexivity.
Qed.

(** [indexOf] with the two [substring] calls of the long-flag rule computes
    the split at the first [=]. *)
Lemma indexOf_splitAtEquals (s : string) :
  match Js.indexOf s "=" with
  | None => splitAtEquals s = None
  | Some i =>
      i < String.length s
      /\ splitAtEquals s
         = Some (Js.substring s 0 i, Js.substring s (i + 1) (String.length s))
  end.
Proof.
  unfold Js.indexOf.
  induction s as [| c r IH].
  - reflexivity.
  - rewrite index_equals_cons. cbn [splitAtEquals].
    destruct (Ascii.eqb c "="%char).
    + split; [cbn; lia |].
      rewrite !js_substring_range by (cbn; lia).
      cbn [String.length Nat.add Nat.sub String.substring].
      now rewrite Nat.sub_0_r, substring_whole.
    + destruct (String.index 0 "=" r) as [i |]; cbn [option_map].
      * destruct IH as [Hi IH]. split; [cbn; lia |].
        rewrite IH.
        rewrite !js_substring_range by (cbn; lia).
        cbn [String.length].
        replace (S i + 1) with (S (i + 1)) by lia.
        replace (S i - 0) with (S i) by lia.
        replace (i - 0) with i by lia.
        cbn [String.substring Nat.sub]. reflexivity.
      * now rewrite IH.
Qed.

(** The split really is a split at the first [=]. *)
Lemma splitAtEquals_sound (s n v : string) :
  splitAtEquals s = Some (n, v) ->
  s = (n ++ "=" ++ v)%string /\ ~ occursIn "="%char n.
Proof.
  revert n v. induction s as [| c r IH]; intros n v H; cbn in H.
  - discriminate.
  - destruct (Ascii.eqb_spec c "="%char) as [E | N].
    + inversion H; subst. split; [reflexivity | intros []].
    + destruct (splitAtEquals r) as [[n' v'] |]; [| discriminate].
      injection H as <- <-. destruct (IH n' v' eq_refl) as [E O].
      split.
      * cbn. now rewrite E at 1.
      * intros [X | X]; [congruence | exact (O X)].
Qed.

Lemma splitAtEquals_none (s : string) :
  splitAtEquals s = None -> ~ occursIn "="%char s.
Proof.
  induction s as [| c r IH]; cbn; intros H.
  - intros [].
  - destruct (Ascii.eqb_spec c "="%char) as [E | N]; [discriminate |].
    destruct (splitAtEquals r) as [[n' v'] |]; [discriminate |].
    intros [X | X]; [congruence | exact (IH eq_refl X)].
Qed.

(** One call of [parse] appends the token of the five rules and raises the
    end-of-options flag at the marker. *)
Lemma parse_classify (st : ParseState) (arg : string) :
  parse st arg
  = mkParseState (parsedArgs st ++ [classify (eoo st) arg])
                 (eoo st || String.eqb arg "--").
Proof.
  unfold parse, classify, push, Js.startsWith.
  destruct st as [ps e]; cbn [parsedArgs eoo].
  destruct e; cbn [orb]; [reflexivity |].
  destruct (String.eqb arg "--"); [reflexivity |].
  destruct (String.prefix "--" arg).
  - pose proof (indexOf_splitAtEquals arg) as H.
    destruct (Js.indexOf arg "=") as [i |].
    + destruct H as [_ H]. rewrite H. reflexivity.
    + rewrite H. reflexivity.
  - destruct (String.prefix "-" arg); reflexivity.
Qed.

Lemma fold_parse (raw : list string) (st : ParseState) :
  parsedArgs (fold_left parse raw st)
  = parsedArgs st ++ tokenize (eoo st) raw.
Proof.
  revert st. induction raw as [| s rest IH]; intros st; cbn.
  - now rewrite app_nil_r.
  - rewrite IH, parse_classify. cbn [parsedArgs eoo].
    now rewrite <- app_assoc.
Qed.

Lemma parseArguments_tokenize (raw : list string) :
  parsed (parseArguments raw) = tokenize false raw.
Proof. unfold parseArguments. cbn [parsed]. now rewrite fold_parse. Qed.

Lemma tokenize_length (seen : bool) (raw : list string) :
  List.length (tokenize seen raw) = List.length raw.
Proof.
  revert seen. induction raw as [| s rest IH]; intros seen; cbn;
    [reflexivity | now rewrite IH].
Qed.

Lemma tokenize_nth (raw : list string) (seen : bool) (i : nat) :
  nth_error (tokenize seen raw) i
  = option_map (classify (seen || endOfOptionsSeen raw i)) (nth_error raw i).
Proof.
  revert seen i. induction raw as [| s rest IH]; intros seen i.
  - destruct i; reflexivity.
  - destruct i as [| i]; cbn [tokenize nth_error].
    + unfold endOfOptionsSeen. cbn. now rewrite orb_false_r.
    + rewrite IH. unfold endOfOptionsSeen. cbn [firstn existsb].
      now rewrite orb_assoc.
Qed.

Lemma endOfOptionsSeen_after (raw : list string) (i j : nat) :
  nth_error raw i = Some "--" -> i < j -> endOfOptionsSeen raw j = true.
Proof.
  unfold endOfOptionsSeen. revert i j.
  induction raw as [| s rest IH]; intros i j Hi Hj.
  - destruct i; discriminate.
  - destruct j as [| j]; [lia |]. cbn [firstn existsb].
    destruct i as [| i]; cbn in Hi.
    + inversion Hi; subst. reflexivity.
    + rewrite (IH i j Hi) by lia. apply orb_true_r.
Qed.

End ArgsFacts.

(* ================================================================= *)
(** * Properties of the flag queries *)

Module QueryFacts.

Import Spec ArgsFacts.

Lemma includes_char (c : ascii) (s : string) :
  Js.includes s (String c EmptyString) = true <-> occursIn c s.
Proof.
  unfold Js.includes, occursIn.
  induction s as [| b r IH].
  - cbn. split; [discriminate | intros []].
  - cbn [String.index String.prefix list_ascii_of_string].
    destruct (ascii_dec c b) as [E | N].
    + subst b. rewrite prefix_empty. split; [now left | reflexivity].
    + destruct (String.index 0 (String c EmptyString) r) as [i |].
      * split; [intros _; right; now apply IH | reflexivity].
      * split; [intros X; discriminate X |].
        intros [X | X]; [congruence |].
        apply IH in X. discriminate X.
Qed.

(** What the destructuring at the head of [has] and [get] yields for a
    well-formed spec. *)
Lemma flagSpec_wellFormed (a : string) (b long : option string)
  (letter : option ascii) :
  wellFormedSpec a b long letter ->
  exists short,
    flagSpec a b = Ok (long, short)
    /\ short = option_map shortName letter.
Proof.
  intros WF. destruct WF as [l Hl | c Hc | l c Hl Hc]; unfold flagSpec, Js.startsWith.
  - rewrite Hl. now exists None.
  - exists (Some (shortName c)). split; [| reflexivity].
    unfold shortName. cbn [String.prefix].
    destruct (ascii_dec "-" "-") as [_ | N]; [| congruence].
    destruct (ascii_dec "-" c) as [E | _]; [congruence | reflexivity].
  - rewrite Hl. now exists (Some (shortName c)).
Qed.

Lemma hasLoop_exists (long short : option string) (toks : list ParsedArgument) :
  hasLoop long short toks = true
  <-> exists tok, In tok toks
                  /\ (hasLong long tok = true \/ hasShort short tok = true).
Proof.
  induction toks as [| t rest IH]; cbn [hasLoop].
  - split; [intros X; discriminate X | intros (? & [] & _)].
  - destruct (hasLong long t) eqn:HL.
    + split; [intros _; exists t; split; [now left | now left] | reflexivity].
    + destruct (hasShort short t) eqn:HS.
      * split; [intros _; exists t; split; [now left | now right] | reflexivity].
      * rewrite IH. split.
        -- intros (tok & Hin & H). exists tok. split; [now right | exact H].
        -- intros (tok & [-> | Hin] & H).
           ++ destruct H; congruence.
           ++ now exists tok.
Qed.

(** A short-flag token of the tokenizer is a raw string that starts with a
    dash. *)
Lemma classify_short (seen : bool) (s sh : string) :
  classify seen s = Short sh -> sh = s /\ String.prefix "-" s = true.
Proof.
  unfold classify.
  destruct seen; [discriminate |].
  destruct (String.eqb s "--"); [discriminate |].
  destruct (String.prefix "--" s).
  - destruct (splitAtEquals s) as [[n v] |]; discriminate.
  - destruct (String.prefix "-" s) eqn:P; [| discriminate].
    intros H. inversion H. now split.
Qed.

Lemma tokenize_short (raw : list string) (seen : bool) (sh : string) :
  In (Short sh) (tokenize seen raw) -> String.prefix "-" sh = true.
Proof.
  revert seen. induction raw as [| s rest IH]; intros seen; cbn [tokenize].
  - intros [].
  - intros [H | H].
    + apply classify_short in H. destruct H as [-> P]. exact P.
    + exact (IH _ H).
Qed.

Lemma prefix_dash (sh : string) :
  String.prefix "-" sh = true -> sh = String "-"%char (letters sh).
Proof.
  destruct sh as [| c r]; cbn [String.prefix letters];
    [intros X; discriminate X |].
  destruct (ascii_dec "-" c) as [<- | _]; intros X;
    [reflexivity | discriminate X].
Qed.

(** Searching a bundle for a letter other than the dash is searching its
    letters. *)
Lemma hasShort_letters (c : ascii) (sh : string) :
  c <> "-"%char ->
  String.prefix "-" sh = true ->
  (hasShort (Some (shortName c)) (Short sh) = true
   <-> occursIn c (letters sh)).
Proof.
  intros Hc P. unfold hasShort, shortName.
  cbn [Js.truthy Js.charAt String.get Js.toSearchString negb String.eqb andb].
  rewrite includes_char.
  rewrite (prefix_dash sh P) at 1. unfold occursIn.
  cbn [list_ascii_of_string In].
  split; [intros [X | X]; [congruence | exact X] | now right].
Qed.

Lemma strEqOpt_true (l : string) (long : option string) :
  Js.strEqOpt l long = true <-> long = Some l.
Proof.
  destruct long as [x |]; cbn.
  - rewrite String.eqb_eq. split; congruence.
  - split; intros X; discriminate X.
Qed.

(** ** [get] *)

Lemma js_substring_from_2 (a b : ascii) (r : string) :
  Js.substring (String a (String b r)) 2 (String.length (String a (String b r)))
  = r.
Proof.
  rewrite js_substring_range by (cbn; lia).
  cbn [String.length Nat.sub String.substring].
  rewrite Nat.sub_0_r. apply substring_whole.
Qed.

Lemma shortLetter_shortName (letter : option ascii) :
  shortLetter (option_map shortName letter) = letter.
Proof. destruct letter; reflexivity. Qed.

(** One iteration of the loop of [get], at a token followed by [rest], is
    an overwrite by the token's contribution, as long as the token is not a
    bundle without letters queried without a short name. *)
Lemma getStep_contribution (long : option string) (letter : option ascii)
  (pre rest : list ParsedArgument) (tok : ParsedArgument) (v : option string) :
  (letter = None -> forall sh, tok = Short sh -> 2 <= String.length sh) ->
  getStep long (option_map shortName letter) (pre ++ tok :: rest) v
          (List.length pre, tok)
  = match contribution long letter tok (hd_error rest) with
    | Some x => Some x
    | None => v
    end.
Proof.
  intros NoSlip. unfold getStep, contribution.
  destruct tok as [t | l a | sh |]; try reflexivity.
  - destruct (Js.strEqOpt l long); [| reflexivity].
    destruct a as [x |]; [reflexivity |].
    replace (nth_error (pre ++ Long l None :: rest) (List.length pre + 1))
      with (hd_error rest).
    + destruct (hd_error rest) as [[]|]; reflexivity.
    + rewrite nth_error_app2 by lia.
      replace (List.length pre + 1 - List.length pre) with 1 by lia.
      destruct rest; reflexivity.
  - rewrite shortLetter_shortName.
    destruct sh as [| c0 [| c1 r]].
    + destruct letter as [c |]; [reflexivity |].
      specialize (NoSlip eq_refl _ eq_refl). cbn in NoSlip. lia.
    + destruct letter as [c |]; [reflexivity |].
      specialize (NoSlip eq_refl _ eq_refl). cbn in NoSlip. lia.
    + cbn [Js.charAt String.get letters].
      destruct letter as [c |]; cbn [Js.charEq]; [| reflexivity].
      destruct (Ascii.eqb c1 c); [| reflexivity].
      now rewrite js_substring_from_2.
Qed.

Lemma get_fold (long : option string) (letter : option ascii)
  (suffix pre : list ParsedArgument) (v : option string) :
  (letter = None ->
   forall sh, In (Short sh) suffix -> 2 <= String.length sh) ->
  fold_left (getStep long (option_map shortName letter) (pre ++ suffix))
            (combine (seq (List.length pre) (List.length suffix)) suffix) v
  = match lastContribution long letter suffix with
    | Some x => Some x
    | None => v
    end.
Proof.
  revert pre v. induction suffix as [| tok rest IH]; intros pre v NoSlip.
  - reflexivity.
  - cbn [List.length seq combine fold_left lastContribution].
    rewrite getStep_contribution
      by (intros E sh ->; apply (NoSlip E); now left).
    replace (pre ++ tok :: rest) with ((pre ++ [tok]) ++ rest)
      by now rewrite <- app_assoc.
    replace (S (List.length pre)) with (List.length (pre ++ [tok]))
      by (rewrite length_app; cbn; lia).
    rewrite IH by (intros E sh H; apply (NoSlip E); now right).
    destruct (lastContribution long letter rest); reflexivity.
Qed.

(** Outside the one degenerate combination, [get] is last-occurrence-wins
    over the contributions of section 4.2. *)
Lemma get_lastContribution (args : Arguments) (a : string)
  (b long : option string) (letter : option ascii) :
  wellFormedSpec a b long letter ->
  (letter = None ->
   forall sh, In (Short sh) (parsed args) -> 2 <= String.length sh) ->
  get args a b = Ok (lastContribution long letter (parsed args)).
Proof.
  intros WF NoSlip. unfold get.
  destruct (flagSpec_wellFormed a b long letter WF) as (short & -> & ->).
  cbn [Errors.bind]. f_equal. unfold enumerate.
  pose proof (get_fold long letter (parsed args) [] None NoSlip) as H.
  cbn [app List.length] in H. rewrite H.
  destruct (lastContribution long letter (parsed args)); reflexivity.
Qed.

End QueryFacts.

(* ================================================================= *)
(** * Properties of the validator *)

Module ValidateFacts.

Import Spec.

Lemma command_ind (P : CommandDefinition -> Prop) :
  (forall c, Forall P (subcommands c) -> P c) -> forall c, P c.
Proof.
  intros H. fix IH 1. intros c. apply H.
  destruct c as [n a r subs d al lf lfa sf sfa dw]. cbn [subcommands].
  induction subs as [| s rest IHsubs]; constructor; [apply IH | exact IHsubs].
Qed.

Lemma result_unit (r : Result unit) : (exists e, r = Throw e) \/ r = Ok tt.
Proof. destruct r as [[] | e]; [now right | left; now exists e]. Qed.

Lemma validateCommandDefinition_eq (x : CommandDefinition) :
  validateCommandDefinition x
  = (validateSubcommandRequired x ;;;
     validateMultipleDefault x ;;;
     validateSubcommands x)%result.
Proof. destruct x; reflexivity. Qed.

Lemma forEach_ok {A : Type} (f : A -> Result unit) (xs : list A) :
  forEach f xs = Ok tt <-> Forall (fun x => f x = Ok tt) xs.
Proof.
  induction xs as [| x rest IH]; cbn [forEach].
  - split; [constructor | reflexivity].
  - fold (forEach f rest). split.
    + intros H. destruct (f x) as [[] | e] eqn:E; cbn in H; [| discriminate H].
      constructor; [exact E | now apply IH].
    + intros H. inversion H as [| ? ? Hx Hrest]; subst.
      rewrite Hx. cbn. now apply IH.
Qed.

Lemma forEach_first_throw {A : Type} (f : A -> Result unit)
  (pre post : list A) (x : A) (e : Exn) :
  Forall (fun p => f p = Ok tt) pre ->
  f x = Throw e ->
  forEach f (pre ++ x :: post) = Throw e.
Proof.
  intros Hpre Hx. induction Hpre as [| p pre' Hp _ IH]; cbn [app forEach].
  - now rewrite Hx.
  - fold (forEach f (pre' ++ x :: post)). now rewrite Hp.
Qed.

(** ** Every error of the validator is a configuration error *)

Lemma configOnly_ok : configOnly (Ok tt).
Proof. intros e H; discriminate H. Qed.

Lemma configOnly_error (msg : string) : configOnly (configurationError msg).
Proof. intros e H. injection H as <-. now exists msg. Qed.

Lemma configOnly_bind (m k : Result unit) :
  configOnly m -> configOnly k -> configOnly (m ;;; k)%result.
Proof.
  intros Hm Hk e. destruct m as [[] | e']; cbn; [apply Hk |].
  intros H. apply Hm. exact H.
Qed.

Lemma configOnly_forEach {A : Type} (f : A -> Result unit) (xs : list A) :
  Forall (fun x => configOnly (f x)) xs -> configOnly (forEach f xs).
Proof.
  induction 1 as [| x rest Hx _ IH]; cbn [forEach].
  - apply configOnly_ok.
  - fold (forEach f rest). now apply configOnly_bind.
Qed.

Create HintDb config.
#[local] Hint Resolve configOnly_ok configOnly_error configOnly_bind : config.

Lemma configOnly_subcommandRequired x : configOnly (validateSubcommandRequired x).
Proof.
  unfold validateSubcommandRequired.
  destruct (_ && _); auto with config.
Qed.

Lemma configOnly_multipleDefault x : configOnly (validateMultipleDefault x).
Proof.
  unfold validateMultipleDefault.
  destruct (_ <? _)%nat; auto with config.
Qed.

Lemma configOnly_disallowWithoutFlag x : configOnly (validateDisallowWithoutFlag x).
Proof.
  unfold validateDisallowWithoutFlag.
  destruct (_ && _); auto with config.
Qed.

Lemma configOnly_shortFlagSingleChar x : configOnly (validateShortFlagSingleChar x).
Proof.
  unfold validateShortFlagSingleChar.
  destruct (shortFlag x); [destruct (_ && _) |]; auto with config.
Qed.

Lemma configOnly_flagAliasesWithoutFlag x t :
  configOnly (validateFlagAliasesWithoutFlag x t).
Proof.
  unfold validateFlagAliasesWithoutFlag.
  destruct (_ && _); auto with config.
Qed.

Lemma configOnly_subcommandOwn x : configOnly (validateSubcommandOwn x).
Proof.
  unfold validateSubcommandOwn, validateShortFlagAliasesSingleChar.
  repeat apply configOnly_bind;
    auto using configOnly_disallowWithoutFlag, configOnly_shortFlagSingleChar,
               configOnly_flagAliasesWithoutFlag.
  apply configOnly_forEach, Forall_forall. intros a _.
  apply configOnly_shortFlagSingleChar.
Qed.

Lemma configOnly_commandDefinition x : configOnly (validateCommandDefinition x).
Proof.
  induction x as [x IH] using command_ind.
  rewrite validateCommandDefinition_eq.
  repeat apply configOnly_bind;
    auto using configOnly_subcommandRequired, configOnly_multipleDefault.
  unfold validateSubcommands. apply configOnly_forEach.
  eapply Forall_impl; [| exact IH]. intros s Hs.
  unfold validateSubcommandDefinition.
  apply configOnly_bind; [exact Hs | apply configOnly_subcommandOwn].
Qed.

(** ** Validation of a tree and of its parts *)

Lemma bind_ok (m k : Result unit) :
  (m ;;; k)%result = Ok tt -> m = Ok tt /\ k = Ok tt.
Proof.
  destruct m as [[] | e]; cbn; intros H; [now split | discriminate H].
Qed.

Lemma validateCommandDefinition_ok (x : CommandDefinition) :
  validateCommandDefinition x = Ok tt ->
  validateSubcommandRequired x = Ok tt
  /\ validateMultipleDefault x = Ok tt
  /\ Forall (fun s => validateSubcommandDefinition s = Ok tt) (subcommands x).
Proof.
  rewrite validateCommandDefinition_eq. intros H.
  apply bind_ok in H. destruct H as [H1 H].
  apply bind_ok in H. destruct H as [H2 H].
  repeat split; [exact H1 | exact H2 | now apply forEach_ok].
Qed.

Lemma validateSubcommandDefinition_ok (s : SubcommandDefinition) :
  validateSubcommandDefinition s = Ok tt ->
  validateCommandDefinition s = Ok tt /\ validateSubcommandOwn s = Ok tt.
Proof. apply bind_ok. Qed.

(** A tree that validates has only validating commands. *)
Lemma inTree_validates (root d : CommandDefinition) :
  inTree root d ->
  validateCommandDefinition root = Ok tt ->
  validateCommandDefinition d = Ok tt.
Proof.
  induction 1 as [c | c s d Hin _ IH]; intros H; [exact H |].
  apply IH. apply validateCommandDefinition_ok in H.
  destruct H as (_ & _ & H). rewrite Forall_forall in H.
  now apply validateSubcommandDefinition_ok, H.
Qed.

Lemma subcommandIn_validates (root : CommandDefinition)
  (s : SubcommandDefinition) :
  subcommandIn root s ->
  validateCommandDefinition root = Ok tt ->
  validateSubcommandDefinition s = Ok tt.
Proof.
  intros (parent & Htree & Hin) H.
  apply (inTree_validates root parent Htree) in H.
  apply validateCommandDefinition_ok in H.
  destruct H as (_ & _ & H). rewrite Forall_forall in H. now apply H.
Qed.

(** A command anywhere in the tree that does not validate makes the whole
    tree fail, with a configuration error. *)
Lemma invalid_inTree (root d : CommandDefinition) :
  inTree root d ->
  validateCommandDefinition d <> Ok tt ->
  exists msg, validateCommandDefinition root = configurationError msg.
Proof.
  intros Htree Hd.
  destruct (result_unit (validateCommandDefinition root)) as [[e E] | E].
  - destruct (configOnly_commandDefinition root e E) as [msg ->].
    now exists msg.
  - elim Hd. exact (inTree_validates root d Htree E).
Qed.

Lemma invalid_subcommandIn (root : CommandDefinition)
  (s : SubcommandDefinition) :
  subcommandIn root s ->
  validateSubcommandDefinition s <> Ok tt ->
  exists msg, validateCommandDefinition root = configurationError msg.
Proof.
  intros Hs Hbad.
  destruct (result_unit (validateCommandDefinition root)) as [[e E] | E].
  - destruct (configOnly_commandDefinition root e E) as [msg ->].
    now exists msg.
  - elim Hbad. exact (subcommandIn_validates root s Hs E).
Qed.

(** The walk raises the first error it meets. *)
Lemma walksTo_throw (c d : CommandDefinition) (e : Exn) :
  walksTo c d ->
  validateCommandDefinition d = Throw e ->
  validateCommandDefinition c = Throw e.
Proof.
  induction 1 as [c | c pre s post d Hsubs H1 H2 Hpre _ IH]; intros Hd;
    [exact Hd |].
  rewrite validateCommandDefinition_eq, H1, H2. cbn [Errors.bind].
  unfold validateSubcommands. rewrite Hsubs.
  apply forEach_first_throw; [exact Hpre |].
  unfold validateSubcommandDefinition. now rewrite (IH Hd).
Qed.

Lemma walksToSubcommand_throw (root : CommandDefinition)
  (s : SubcommandDefinition) (e : Exn) :
  walksToSubcommand root s ->
  validateSubcommandDefinition s = Throw e ->
  validateCommandDefinition root = Throw e.
Proof.
  intros (parent & pre & post & Hwalk & Hsubs & H1 & H2 & Hpre) Hs.
  apply (walksTo_throw root parent e Hwalk).
  rewrite validateCommandDefinition_eq, H1, H2. cbn [Errors.bind].
  unfold validateSubcommands. rewrite Hsubs.
  now apply forEach_first_throw.
Qed.

Lemma createCommand_throw (root : CommandOptions) (e : Exn) :
  validateCommandDefinition root = Throw e -> createCommand root = Throw e.
Proof.
  intros H. unfold createCommand, validateCommandOptions. now rewrite H.
Qed.

Lemma createCommand_ok (root : CommandOptions) (c : Command) :
  createCommand root = Ok c ->
  validateCommandDefinition root = Ok tt /\ options c = root.
Proof.
  unfold createCommand, validateCommandOptions.
  destruct (validateCommandDefinition root) as [[] | e]; cbn; intros H;
    [| discriminate H].
  injection H as <-. now split.
Qed.

(** ** The rule on default subcommands *)

Lemma multipleDefault_throws (d : CommandDefinition) :
  2 <= List.length (filter isDefault (subcommands d)) ->
  validateCommandDefinition d
  = configurationError (multipleDefaultMessage (name d) (defaultNames d)).
Proof.
  intros H. rewrite validateCommandDefinition_eq.
  unfold validateSubcommandRequired.
  destruct (subcommands d) as [| s rest] eqn:Hsubs; [cbn in H; lia |].
  cbn [List.length Nat.eqb]. rewrite andb_false_r. cbn [Errors.bind].
  unfold validateMultipleDefault, defaultNames.
  rewrite length_map, Hsubs.
  destruct (Nat.ltb_spec 1 (List.length (filter isDefault (s :: rest))));
    [reflexivity | lia].
Qed.

(** ** The rule on short flags *)

Lemma shortFlag_throws (x : SubcommandDefinition) (f : string) :
  shortFlag x = Some f -> f <> EmptyString -> String.length f <> 1 ->
  validateShortFlagSingleChar x
  = configurationError (shortFlagMessage (name x) f).
Proof.
  intros Hf Hne Hlen. unfold validateShortFlagSingleChar. rewrite Hf.
  cbn [Js.truthy].
  destruct (String.eqb_spec f EmptyString) as [E | _]; [congruence |].
  destruct (Nat.eqb_spec (String.length f) 1) as [E | _]; [congruence |].
  reflexivity.
Qed.

Lemma subcommandOwn_throws_shortFlag (s : SubcommandDefinition) (e : Exn) :
  validateDisallowWithoutFlag s = Ok tt ->
  validateShortFlagSingleChar s = Throw e ->
  validateSubcommandOwn s = Throw e.
Proof. intros H1 H2. unfold validateSubcommandOwn. now rewrite H1, H2. Qed.

Lemma subcommandOwn_throws_alias (s : SubcommandDefinition) (e : Exn) :
  validateDisallowWithoutFlag s = Ok tt ->
  validateShortFlagSingleChar s = Ok tt ->
  validateShortFlagAliasesSingleChar s = Throw e ->
  validateSubcommandOwn s = Throw e.
Proof.
  intros H1 H2 H3. unfold validateSubcommandOwn. now rewrite H1, H2, H3.
Qed.

(** A subcommand with a non-empty short flag or alias that is not one
    character long does not validate. *)
Lemma badShortFlag_invalid (s : SubcommandDefinition) (f : string) :
  shortFlag s = Some f \/ In f (shortFlagAliases s) ->
  f <> EmptyString -> String.length f <> 1 ->
  validateSubcommandDefinition s <> Ok tt.
Proof.
  intros Hf Hne Hlen H.
  apply validateSubcommandDefinition_ok in H. destruct H as [_ H].
  unfold validateSubcommandOwn in H.
  apply bind_ok in H. destruct H as [_ H].
  apply bind_ok in H. destruct H as [Hshort H].
  apply bind_ok in H. destruct H as [Halias _].
  destruct Hf as [Hf | Hf].
  - rewrite (shortFlag_throws s f Hf Hne Hlen) in Hshort. discriminate Hshort.
  - unfold validateShortFlagAliasesSingleChar in Halias.
    rewrite forEach_ok, Forall_forall in Halias.
    specialize (Halias f Hf).
    rewrite (shortFlag_throws (nameAndShortFlag (name s) f) f eq_refl Hne Hlen)
      in Halias.
    discriminate Halias.
Qed.

End ValidateFacts.

(* ================================================================= *)
(** * Properties of subcommand matching and of [handle] *)

Module CommandFacts.

Import Spec ValidateFacts.

Lemma find_split {A : Type} (p : A -> bool) (xs : list A) (x : A) :
  find p xs = Some x ->
  exists pre post,
    xs = pre ++ x :: post /\ p x = true /\ Forall (fun y => p y = false) pre.
Proof.
  induction xs as [| a rest IH]; cbn [find]; intros H; [discriminate H |].
  destruct (p a) eqn:E.
  - injection H as <-. exists [], rest. repeat split; [exact E | constructor].
  - destruct (IH H) as (pre & post & -> & Hx & Hpre).
    exists (a :: pre), post. repeat split; [exact Hx | now constructor].
Qed.

(** ** Long-flag tokens *)

Lemma matchOne_long (s : SubcommandDefinition) (l : string) (a : option string) :
  matchOne s (Long l a)
  = if longSelectsb s l then Some (longOutcome s l a) else None.
Proof.
  unfold matchOne, longSelectsb, longOutcome.
  destruct (longFlag s) as [f |]; [| reflexivity].
  destruct (existsb _ _); [| reflexivity].
  destruct a; reflexivity.
Qed.

Lemma matchLoop_long (subs : list SubcommandDefinition) (l : string)
  (a : option string) :
  matchLoop subs (Long l a)
  = match find (fun s => longSelectsb s l) subs with
    | Some s => Some (longOutcome s l a)
    | None => None
    end.
Proof.
  induction subs as [| s rest IH]; cbn [matchLoop find]; [reflexivity |].
  rewrite matchOne_long. destruct (longSelectsb s l); [reflexivity | exact IH].
Qed.

Lemma longSelectsb_sound (s : SubcommandDefinition) (l : string) :
  longSelectsb s l = true -> longSelects s l.
Proof.
  unfold longSelectsb, longSelects.
  destruct (longFlag s) as [f |]; [| intros X; discriminate X].
  cbn [existsb]. rewrite orb_true_iff, existsb_exists.
  intros [H | (e & Hin & H)]; apply String.eqb_eq in H; subst.
  - now left.
  - now right.
Qed.

Lemma aliases_need_flag (s : SubcommandDefinition) (x : string) :
  validateFlagAliasesWithoutFlag s long = Ok tt ->
  In x (longFlagAliases s) ->
  exists f, longFlag s = Some f.
Proof.
  unfold validateFlagAliasesWithoutFlag. cbn [flagAliasesOf flagOf].
  intros H Hin.
  destruct (longFlagAliases s) as [| a rest]; [destruct Hin |].
  cbn [List.length Nat.eqb negb andb] in H.
  destruct (longFlag s) as [f |]; [now exists f |].
  cbn in H. discriminate H.
Qed.

Lemma longSelectsb_complete (s : SubcommandDefinition) (l : string) :
  validateSubcommandDefinition s = Ok tt ->
  longSelects s l -> longSelectsb s l = true.
Proof.
  intros Hv Hsel.
  apply validateSubcommandDefinition_ok in Hv. destruct Hv as [_ Hv].
  unfold validateSubcommandOwn in Hv.
  apply bind_ok in Hv. destruct Hv as [_ Hv].
  apply bind_ok in Hv. destruct Hv as [_ Hv].
  apply bind_ok in Hv. destruct Hv as [_ Hv].
  apply bind_ok in Hv. destruct Hv as [Hv _].
  unfold longSelectsb. destruct Hsel as [H | H].
  - rewrite H. cbn [existsb]. now rewrite String.eqb_refl.
  - destruct (aliases_need_flag s _ Hv H) as [f ->].
    cbn [existsb]. apply orb_true_iff. right.
    apply existsb_exists. exists (Js.substringFrom l 2).
    split; [exact H | apply String.eqb_refl].
Qed.

(** ** Tokens that are not long flags with a value never make
       [matchSubcommand] throw *)

Lemma matchOne_throw (s : SubcommandDefinition) (arg : ParsedArgument)
  (e : Exn) :
  matchOne s arg = Some (Throw e) ->
  exists l v, arg = Long l (Some v).
Proof.
  destruct arg as [t | l [v |] | sh |]; cbn [matchOne].
  - destruct (_ && _); intros X; discriminate X.
  - intros _. now exists l, v.
  - destruct (longFlag s); [destruct (existsb _ _) |]; intros X; discriminate X.
  - destruct (shortFlag s);
      [destruct (existsb _ _); [destruct (_ =? _)%nat |] |];
      intros X; discriminate X.
  - intros X; discriminate X.
Qed.

Lemma matchLoop_throw (subs : list SubcommandDefinition)
  (arg : ParsedArgument) (e : Exn) :
  matchLoop subs arg = Some (Throw e) ->
  exists l v, arg = Long l (Some v).
Proof.
  induction subs as [| s rest IH]; cbn [matchLoop]; [intros X; discriminate X |].
  destruct (matchOne s arg) as [r |] eqn:E; [| exact IH].
  intros H. injection H as ->. exact (matchOne_throw s arg e E).
Qed.

Lemma matchSubcommand_throw (command : CommandDefinition)
  (arg : ParsedArgument) (e : Exn) :
  matchSubcommand command arg = Throw e ->
  exists l v s,
    arg = Long l (Some v)
    /\ In s (subcommands command)
    /\ longSelectsb s l = true
    /\ e = Clap (ClapSubcommandLongFlagValueError l v).
Proof.
  unfold matchSubcommand.
  destruct (matchLoop (subcommands command) arg) as [r |] eqn:E.
  - intros ->. destruct (matchLoop_throw _ _ _ E) as (l & v & ->).
    rewrite matchLoop_long in E.
    destruct (find _ _) as [s |] eqn:F; [| discriminate E].
    destruct (find_split _ _ _ F) as (pre & post & Hsubs & Hs & _).
    exists l, v, s. repeat split.
    + rewrite Hsubs. apply in_elt.
    + exact Hs.
    + cbn in E. now injection E as <-.
  - destruct (find isDefault (subcommands command)); intros X; discriminate X.
Qed.

Lemma matchSubcommand_long (command : CommandDefinition)
  (s : SubcommandDefinition) (l : string) (a : option string) :
  In s (subcommands command) ->
  longSelectsb s l = true ->
  exists s' pre post,
    subcommands command = pre ++ s' :: post
    /\ longSelectsb s' l = true
    /\ Forall (fun p => longSelectsb p l = false) pre
    /\ matchSubcommand command (Long l a) = longOutcome s' l a.
Proof.
  intros Hin Hsel. unfold matchSubcommand. rewrite matchLoop_long.
  destruct (find (fun x => longSelectsb x l) (subcommands command))
    as [s' |] eqn:F.
  - destruct (find_split _ _ _ F) as (pre & post & Hsubs & Hs & Hpre).
    exists s', pre, post. now repeat split.
  - apply (find_none _ _ F) in Hin. cbn in Hin. congruence.
Qed.

(** ** Short-flag bundles *)

(** A bundle whose first letter is the subcommand's short flag or one of
    the aliases: one letter selects the subcommand, more letters select it
    and hand back a bundle of the remaining letters. *)
Lemma matchOne_short (s : SubcommandDefinition) (f : string) (c : ascii)
  (rest : string) :
  shortFlag s = Some f ->
  f = String c EmptyString \/ In (String c EmptyString) (shortFlagAliases s) ->
  matchOne s (Short (String "-"%char (String c rest)))
  = Some (Ok (mkMatch (Some s)
                match rest with
                | EmptyString => None
                | _ => Some (Short (String "-"%char rest))
                end)).
Proof.
  intros Hf Hsel. unfold matchOne. rewrite Hf.
  assert (existsb (isFirstShortFlag (String "-"%char (String c rest)))
                  (f :: shortFlagAliases s) = true) as ->.
  { apply existsb_exists. unfold isFirstShortFlag.
    cbn [Js.charAt String.get].
    destruct Hsel as [-> | Hin].
    - exists (String c EmptyString). split; [now left | apply String.eqb_refl].
    - exists (String c EmptyString). split; [now right | apply String.eqb_refl]. }
  destruct rest as [| c' rest']; [reflexivity |].
  cbn [String.length Nat.eqb].
  unfold Js.substringFrom. rewrite QueryFacts.js_substring_from_2.
  reflexivity.
Qed.

(** ** [handle] *)

(** The first iteration always throws, and nothing is invoked before. *)
Lemma handleLoop_cons (command : CommandOptions) (arg : ParsedArgument)
  (rest : list ParsedArgument) (log : Log) :
  handleLoop command (arg :: rest) log
  = (log,
     Throw match matchSubcommand command arg with
           | Throw e => e
           | Ok _ => Clap (ClapUnreachableError (unreachableMessage arg))
           end).
Proof.
  cbn [handleLoop]. unfold bindM, loopBody, bindM, lift, throw, ret.
  destruct (matchSubcommand command arg) as [m | e]; [| reflexivity].
  destruct (sub m); reflexivity.
Qed.

Lemma handle_log (c : Command) (args_ : Arguments + list string) (log : Log) :
  fst (handle c args_ log) = log.
Proof.
  unfold handle.
  destruct (parsed match args_ with
                   | inl a => a
                   | inr rawArgs => parseArguments rawArgs
                   end) as [| arg rest].
  - reflexivity.
  - now rewrite handleLoop_cons.
Qed.

End CommandFacts.

(* ================================================================= *)
(** * The tokenizer and the flag queries against the specification *)

Module ArgsConformance.

Import Spec ArgsFacts QueryFacts.

Lemma classify_long (seen : bool) (s l : string) (a : option string) :
  classify seen s = Long l a ->
  ~ occursIn "="%char l
  /\ match a with
     | Some v => s = (l ++ "=" ++ v)%string
     | None => s = l
     end.
Proof.
  unfold classify.
  destruct seen; [intros X; discriminate X |].
  destruct (String.eqb s "--"); [intros X; discriminate X |].
  destruct (String.prefix "--" s).
  - destruct (splitAtEquals s) as [[n v] |] eqn:E; intros H;
      injection H as <- <-.
    + destruct (splitAtEquals_sound s n v E) as [Hs Hn]. now split.
    + split; [now apply splitAtEquals_none | reflexivity].
  - destruct (String.prefix "-" s); intros X; discriminate X.
Qed.

Lemma tokenize_long (rawArgs : list string) (seen : bool) (l : string)
  (a : option string) :
  In (Long l a) (tokenize seen rawArgs) ->
  ~ occursIn "="%char l
  /\ exists s, In s rawArgs
               /\ match a with
                  | Some v => s = (l ++ "=" ++ v)%string
                  | None => s = l
                  end.
Proof.
  revert seen. induction rawArgs as [| s rest IH]; intros seen; cbn [tokenize].
  - intros [].
  - intros [H | H].
    + destruct (classify_long seen s l a H) as [Hl Hs].
      split; [exact Hl | exists s; split; [now left | exact Hs]].
    + destruct (IH _ H) as (Hl & s' & Hin & Hs).
      split; [exact Hl | exists s'; split; [now right | exact Hs]].
Qed.

(** C3. For every sequence of raw strings, [parseArguments] returns (it is
    a total function) exactly one token per input string, in order, and the
    token at position [i] is the one the five rules of section 4.1 give for
    the string at [i], where end-of-options has been seen iff an earlier
    string is the marker: [Text] once it has been seen, [EndOfOptions] for
    the marker itself, a long flag split at the first [=] for a string
    starting with two dashes, a short-flag bundle (the dash and its letters)
    for any other string starting with a dash, and [Text] otherwise.  A
    long flag's name holds no [=] and, with its inline value, reassembles
    the raw string; a bundle is a dash followed by its letters; nothing
    after the first marker is classified as a flag; and the three strings
    of the example give the three tokens of the example. *)
Theorem parseArguments_classifies (rawArgs : list string) :
  raw (parseArguments rawArgs) = rawArgs
  /\ List.length (parsed (parseArguments rawArgs)) = List.length rawArgs
  /\ parsed (parseArguments rawArgs) = tokenize false rawArgs
  /\ (forall i s,
        nth_error rawArgs i = Some s ->
        nth_error (parsed (parseArguments rawArgs)) i
        = Some (classify (endOfOptionsSeen rawArgs i) s))
  /\ (forall l a,
        In (Long l a) (parsed (parseArguments rawArgs)) ->
        ~ occursIn "="%char l
        /\ exists s, In s rawArgs
                     /\ match a with
                        | Some v => s = (l ++ "=" ++ v)%string
                        | None => s = l
                        end)
  /\ (forall sh,
        In (Short sh) (parsed (parseArguments rawArgs)) ->
        In sh rawArgs /\ sh = String "-"%char (letters sh))
  /\ (forall i j tok,
        nth_error rawArgs i = Some "--" -> i < j ->
        nth_error (parsed (parseArguments rawArgs)) j = Some tok ->
        exists t, tok = Text t)
  /\ parsed (parseArguments ["--hello"; "world"; "-aBc"])
     = [Long "--hello" None; Text "world"; Short "-aBc"].
Proof.
  rewrite parseArguments_tokenize.
  split; [reflexivity |].
  split; [apply tokenize_length |].
  split; [reflexivity |].
  split.
  { intros i s Hi. rewrite tokenize_nth, Hi. reflexivity. }
  split.
  { intros l a. apply tokenize_long. }
  split.
  { intros sh Hin. split.
    - apply In_nth_error in Hin. destruct Hin as [i Hi].
      rewrite tokenize_nth in Hi.
      destruct (nth_error rawArgs i) as [s |] eqn:E; [| discriminate Hi].
      cbn in Hi. injection Hi as Hi. apply classify_short in Hi.
      destruct Hi as [-> _]. exact (nth_error_In _ _ E).
    - apply prefix_dash. exact (tokenize_short _ _ _ Hin). }
  split; [| reflexivity].
  intros i j tok Hi Hij Hj.
  rewrite tokenize_nth, (endOfOptionsSeen_after rawArgs i j Hi Hij) in Hj.
  destruct (nth_error rawArgs j) as [s |]; [| discriminate Hj].
  cbn in Hj. injection Hj as <-. now exists s.
Qed.

Lemma hasLong_true (long : option string) (tok : ParsedArgument) :
  hasLong long tok = true <-> exists l v, tok = Long l v /\ long = Some l.
Proof.
  destruct tok as [t | l v | sh |]; cbn [hasLong];
    try (split; [intros X; discriminate X | intros (? & ? & X & _); discriminate X]).
  rewrite strEqOpt_true. split.
  - intros H. now exists l, v.
  - intros (l' & v' & E & H). injection E as <- <-. exact H.
Qed.

Lemma hasShort_true (letter : option ascii) (tok : ParsedArgument) :
  (forall c, letter = Some c -> c <> "-"%char) ->
  (forall sh, tok = Short sh -> String.prefix "-" sh = true) ->
  (hasShort (option_map shortName letter) tok = true
   <-> exists sh c, tok = Short sh /\ letter = Some c
                    /\ occursIn c (letters sh)).
Proof.
  intros Hc Hp.
  destruct tok as [t | l v | sh |];
    try (split; [intros X; destruct letter; discriminate X
                | intros (? & ? & X & _); discriminate X]).
  destruct letter as [c |]; cbn [option_map].
  - rewrite (hasShort_letters c sh (Hc c eq_refl) (Hp sh eq_refl)). split.
    + intros H. now exists sh, c.
    + intros (sh' & c' & E & E' & H). injection E as <-. now injection E' as <-.
  - split; [intros X; discriminate X | intros (? & ? & _ & X & _); discriminate X].
Qed.

Lemma wellFormedSpec_letter (a : string) (b long : option string)
  (letter : option ascii) (c : ascii) :
  wellFormedSpec a b long letter -> letter = Some c -> c <> "-"%char.
Proof.
  intros WF E. destruct WF as [l Hl | c' Hc | l c' Hl Hc];
    [discriminate E | now injection E as <- | now injection E as <-].
Qed.

(** C5. For every raw argument list and every well-formed flag spec, [has]
    returns (it does not throw), and it returns [true] if and only if some
    long-flag token's name equals the long name of the spec or some
    short-flag bundle has the short letter of the spec anywhere among its
    letters.  The comparison is of characters, hence case-sensitive: on the
    tokens of [-aBc], [-B] is present and [-b] is not. *)
Theorem has_iff_flagPresent (rawArgs : list string) (a : string)
  (b long : option string) (letter : option ascii) :
  wellFormedSpec a b long letter ->
  (exists r,
     has (parseArguments rawArgs) a b = Ok r
     /\ (r = true
         <-> flagPresent (parsed (parseArguments rawArgs)) long letter))
  /\ has (parseArguments ["-aBc"]) "-B" None = Ok true
  /\ has (parseArguments ["-aBc"]) "-b" None = Ok false.
Proof.
  intros WF. split; [| split; reflexivity].
  unfold has. destruct (flagSpec_wellFormed a b long letter WF) as (short & -> & ->).
  cbn [Errors.bind]. eexists. split; [reflexivity |].
  rewrite hasLoop_exists. unfold flagPresent. split.
  - intros (tok & Hin & [H | H]).
    + apply hasLong_true in H. destruct H as (l & v & -> & H).
      left. now exists l, v.
    + apply hasShort_true in H.
      * destruct H as (sh & c & -> & H). right. now exists sh, c.
      * intros c. apply (wellFormedSpec_letter a b long letter c WF).
      * intros sh ->. rewrite parseArguments_tokenize in Hin.
        exact (tokenize_short _ _ _ Hin).
  - intros [(l & v & Hin & H) | (sh & c & Hin & H)].
    + exists (Long l v). split; [exact Hin | left].
      apply hasLong_true. now exists l, v.
    + exists (Short sh). split; [exact Hin | right].
      apply hasShort_true.
      * intros c'. apply (wellFormedSpec_letter a b long letter c' WF).
      * intros sh' E. injection E as <-. rewrite parseArguments_tokenize in Hin.
        exact (tokenize_short _ _ _ Hin).
      * now exists sh, c.
Qed.

Lemma has_iff_flagPresent_witness :
  wellFormedSpec "--all" (Some "-a") (Some "--all") (Some "a"%char)
  /\ (exists r,
        has (parseArguments ["--hello"; "world"; "-aBc"]) "--all" (Some "-a")
        = Ok r
        /\ (r = true
            <-> flagPresent
                  (parsed (parseArguments ["--hello"; "world"; "-aBc"]))
                  (Some "--all") (Some "a"%char))).
Proof.
  assert (W : wellFormedSpec "--all" (Some "-a") (Some "--all") (Some "a"%char)).
  { apply (wf_pair "--all" "a"%char); [reflexivity | discriminate]. }
  split; [exact W |].
  exact (proj1 (has_iff_flagPresent ["--hello"; "world"; "-aBc"]
                  "--all" (Some "-a") (Some "--all") (Some "a"%char) W)).
Defined.

(** The three cases of [args.test.ts] hold of the embedding. *)
Example args_test_empty :
  let empty := parseArguments [] in
  raw empty = [] /\ parsed empty = []
  /\ has empty "-f" None = Ok false
  /\ has empty "--foo" None = Ok false
  /\ has empty "--foo" (Some "-f") = Ok false
  /\ get empty "-f" None = Ok None
  /\ get empty "--foo" None = Ok None
  /\ get empty "--foo" (Some "-f") = Ok None.
Proof. repeat split; reflexivity. Qed.

Example args_test_hello_world :
  let hello := parseArguments ["--hello"; "world"; "-aBc"] in
  raw hello = ["--hello"; "world"; "-aBc"]
  /\ parsed hello = [Long "--hello" None; Text "world"; Short "-aBc"]
  /\ has hello "-a" None = Ok true
  /\ has hello "--all" (Some "-a") = Ok true
  /\ has hello "-B" None = Ok true
  /\ has hello "-b" None = Ok false
  /\ has hello "--hello" None = Ok true
  /\ get hello "--hello" None = Ok (Some "world")
  /\ get hello "-a" None = Ok (Some "Bc").
Proof. repeat split; reflexivity. Qed.

Example args_test_calculator :
  let calc := parseArguments ["5"; "--add"; "3"; "-m2"; "--divide=4"] in
  get calc "--add" (Some "-a") = Ok (Some "3")
  /\ get calc "--multiply" (Some "-m") = Ok (Some "2")
  /\ get calc "--divide" (Some "-d") = Ok (Some "4").
Proof. repeat split; reflexivity. Qed.

(** On the tokens of the tokenizer, the only bundle without letters is the
    bare dash; away from it, or with a short name in the spec, [get] is the
    last contribution. *)
Lemma get_lastContribution_parsed (rawArgs : list string) (a : string)
  (b long : option string) (letter : option ascii) :
  wellFormedSpec a b long letter ->
  (letter = None -> ~ In (Short "-") (parsed (parseArguments rawArgs))) ->
  get (parseArguments rawArgs) a b
  = Ok (lastContribution long letter (parsed (parseArguments rawArgs))).
Proof.
  intros WF NoDash. apply get_lastContribution; [exact WF |].
  intros E sh Hin. specialize (NoDash E).
  assert (P : String.prefix "-" sh = true).
  { rewrite parseArguments_tokenize in Hin. exact (tokenize_short _ _ _ Hin). }
  rewrite (prefix_dash sh P) in Hin |- *.
  destruct (letters sh) as [| c r]; [elim NoDash; exact Hin | cbn; lia].
Qed.

Example get_last_occurrence_wins :
  get (parseArguments ["--add"; "3"; "--add=5"]) "--add" None = Ok (Some "5").
Proof. reflexivity. Qed.

(** C4.  The claim fails on the code where the spec is a long name alone and
    the sequence holds a bare dash.  On the tokens of [["-"]] and the
    well-formed spec [--foo], no token contributes by the rules of section
    4.2, so the last contribution is [undefined]; yet [get] returns the empty
    string.  (Away from that combination [get] is the last contribution:
    [get_lastContribution_parsed] above.) *)
Theorem get_bare_dash_contributes :
  wellFormedSpec "--foo" None (Some "--foo") None
  /\ parsed (parseArguments ["-"]) = [Short "-"]
  /\ lastContribution (Some "--foo") None (parsed (parseArguments ["-"]))
     = None
  /\ get (parseArguments ["-"]) "--foo" None = Ok (Some EmptyString).
Proof.
  split; [apply wf_long; reflexivity |].
  repeat split; reflexivity.
Qed.

(** C10. With a long name alone as the spec, the iteration of the loop of
    [get] on a bare dash takes the short-bundle branch (the absent first
    letter of the bundle and the absent short letter of the spec compare
    equal) and overwrites the running result, whatever it was, with the
    empty string.  So [get] answers the empty string, not ["x"], on the
    tokens of [["--foo"; "x"; "-"]] (without the dash it answers ["x"]), and
    the empty string, not [undefined], on the tokens of [["-"]]. *)
Theorem get_long_only_bare_dash :
  flagSpec "--foo" None = Ok (Some "--foo", None)
  /\ Js.charEq (Js.charAt "-" 1) (shortLetter None) = true
  /\ (forall (long : string) (all : list ParsedArgument)
             (value : option string) (i : nat),
        getStep (Some long) None all value (i, Short "-") = Some EmptyString)
  /\ get (parseArguments ["--foo"; "x"]) "--foo" None = Ok (Some "x")
  /\ get (parseArguments ["--foo"; "x"; "-"]) "--foo" None = Ok (Some EmptyString)
  /\ get (parseArguments ["-"]) "--foo" None = Ok (Some EmptyString).
Proof.
  repeat split; reflexivity.
Qed.

End ArgsConformance.

(* ================================================================= *)
(** * The validator against the specification *)

Module ValidateConformance.

Import Spec Examples ValidateFacts.

(** C8, as amended.  For every command tree in which some command's direct
    subcommand list has two or more entries with [isDefault: true],
    construction fails with a configuration (developer-induced) error: no
    command object is returned, so no resolution can be attempted, and no
    user input takes part.  Validating that command itself raises the error
    that names it and its default subcommands, and this is the error of the
    construction whenever the depth-first walk reaches the command without
    meeting another violation first (in particular when the command is the
    root). *)
Theorem multiple_default_fails (root d : CommandDefinition) :
  inTree root d ->
  2 <= List.length (filter isDefault (subcommands d)) ->
  (exists msg,
      createCommand root = Throw (Clap (ClapConfigurationError msg))
      /\ kind (ClapConfigurationError msg) = DeveloperInduced)
  /\ (forall c, createCommand root <> Ok c)
  /\ validateCommandDefinition d
     = configurationError (multipleDefaultMessage (name d) (defaultNames d))
  /\ (walksTo root d ->
      createCommand root
      = Throw (Clap (ClapConfigurationError
                       (multipleDefaultMessage (name d) (defaultNames d))))).
Proof.
  intros Htree Hd.
  pose proof (multipleDefault_throws d Hd) as Hthrow.
  assert (Hfail : exists msg,
             createCommand root = Throw (Clap (ClapConfigurationError msg))).
  { destruct (invalid_inTree root d Htree) as [msg Hmsg].
    - rewrite Hthrow. intros X; discriminate X.
    - exists msg. now apply createCommand_throw. }
  split; [destruct Hfail as [msg H]; exists msg; now split |].
  split; [intros c Hc; destruct Hfail as [msg H]; congruence |].
  split; [exact Hthrow |].
  intros Hwalk. apply createCommand_throw.
  exact (walksTo_throw root d _ Hwalk Hthrow).
Qed.

Lemma multiple_default_fails_witness :
  inTree defaultsFirst defaultsFirst
  /\ 2 <= List.length (filter isDefault (subcommands defaultsFirst))
  /\ createCommand defaultsFirst
     = Throw (Clap (ClapConfigurationError
                      (multipleDefaultMessage "app" ["d1"; "d2"]))).
Proof.
  assert (T : inTree defaultsFirst defaultsFirst) by apply inTree_here.
  assert (L : 2 <= List.length (filter isDefault (subcommands defaultsFirst)))
    by (cbn; lia).
  split; [exact T | split; [exact L |]].
  apply (multiple_default_fails defaultsFirst defaultsFirst T L).
  apply walksTo_here.
Defined.

(** C8, as stated, fails: in this tree the command [y] has two default
    subcommands, yet the error of the construction is the one of the
    two-letter short flag of the earlier subcommand [x]; it names neither
    [y] nor any default subcommand. *)
Lemma multiple_default_error_not_named :
  inTree shortFlagFirst twoDefaults
  /\ 2 <= List.length (filter isDefault (subcommands twoDefaults))
  /\ createCommand shortFlagFirst
     = Throw (Clap (ClapConfigurationError (shortFlagMessage "x" "xy")))
  /\ forall n names,
       createCommand shortFlagFirst
       <> Throw (Clap (ClapConfigurationError (multipleDefaultMessage n names))).
Proof.
  split.
  { apply (inTree_sub shortFlagFirst twoDefaults twoDefaults);
      [cbn; auto | apply inTree_here]. }
  split; [cbn; lia |].
  assert (E : createCommand shortFlagFirst
              = Throw (Clap (ClapConfigurationError (shortFlagMessage "x" "xy"))))
    by reflexivity.
  split; [exact E |].
  intros n names H. rewrite E in H.
  injection H as H. unfold shortFlagMessage, multipleDefaultMessage in H.
  cbn [append] in H. discriminate H.
Qed.

(** C9, as amended.  For every subcommand declared in the tree whose
    [shortFlag], or one of whose [shortFlagAliases], is a non-empty string
    that is not exactly one character long, construction fails with a
    configuration (developer-induced) error.  The error identifies the
    subcommand and the offending string whenever the depth-first walk
    reaches that check without meeting another violation first: for the
    [shortFlag], when the walk reaches the subcommand and its subtree and
    its [disallowWithoutFlag] rule pass; for an alias, when in addition the
    [shortFlag] and the aliases before it pass. *)
Theorem bad_short_flag_fails (root : CommandDefinition)
  (s : SubcommandDefinition) (f : string) :
  subcommandIn root s ->
  shortFlag s = Some f \/ In f (shortFlagAliases s) ->
  f <> EmptyString ->
  String.length f <> 1 ->
  (exists msg,
      createCommand root = Throw (Clap (ClapConfigurationError msg))
      /\ kind (ClapConfigurationError msg) = DeveloperInduced)
  /\ (forall c, createCommand root <> Ok c)
  /\ (shortFlag s = Some f ->
      reachesShortFlagCheck root s ->
      createCommand root
      = Throw (Clap (ClapConfigurationError (shortFlagMessage (name s) f))))
  /\ (forall before after,
        shortFlagAliases s = before ++ f :: after ->
        reachesAliasCheck root s before ->
        createCommand root
        = Throw (Clap (ClapConfigurationError (shortFlagMessage (name s) f)))).
Proof.
  intros Hin Hf Hne Hlen.
  assert (Hfail : exists msg,
             createCommand root = Throw (Clap (ClapConfigurationError msg))).
  { destruct (invalid_subcommandIn root s Hin) as [msg Hmsg].
    - exact (badShortFlag_invalid s f Hf Hne Hlen).
    - exists msg. now apply createCommand_throw. }
  split; [destruct Hfail as [msg H]; exists msg; now split |].
  split; [intros c Hc; destruct Hfail as [msg H]; congruence |].
  split.
  - intros Hs (Hwalk & Hsub & Hdis).
    apply createCommand_throw, (walksToSubcommand_throw root s _ Hwalk).
    unfold validateSubcommandDefinition. rewrite Hsub. cbn [Errors.bind].
    apply subcommandOwn_throws_shortFlag; [exact Hdis |].
    exact (shortFlag_throws s f Hs Hne Hlen).
  - intros before after Hal ((Hwalk & Hsub & Hdis) & Hshort & Hbefore).
    apply createCommand_throw, (walksToSubcommand_throw root s _ Hwalk).
    unfold validateSubcommandDefinition. rewrite Hsub. cbn [Errors.bind].
    apply subcommandOwn_throws_alias; [exact Hdis | exact Hshort |].
    unfold validateShortFlagAliasesSingleChar. rewrite Hal.
    apply forEach_first_throw; [exact Hbefore |].
    exact (shortFlag_throws (nameAndShortFlag (name s) f) f eq_refl Hne Hlen).
Qed.

Lemma bad_short_flag_fails_witness :
  subcommandIn (plain "app" [badAlias]) badAlias
  /\ (shortFlag badAlias = Some "uv" \/ In "uv" (shortFlagAliases badAlias))
  /\ "uv" <> EmptyString
  /\ String.length "uv" <> 1
  /\ createCommand (plain "app" [badAlias])
     = Throw (Clap (ClapConfigurationError (shortFlagMessage "s" "uv"))).
Proof.
  assert (T : subcommandIn (plain "app" [badAlias]) badAlias).
  { exists (plain "app" [badAlias]). split; [apply inTree_here | cbn; auto]. }
  assert (F : shortFlag badAlias = Some "uv" \/ In "uv" (shortFlagAliases badAlias))
    by (right; cbn; auto).
  assert (N : "uv" <> EmptyString) by discriminate.
  assert (L : String.length "uv" <> 1) by (cbn; lia).
  split; [exact T | split; [exact F | split; [exact N | split; [exact L |]]]].
  apply (proj2 (proj2 (proj2
           (bad_short_flag_fails (plain "app" [badAlias]) badAlias "uv" T F N L)))
           ["t"] []); [reflexivity |].
  repeat split.
  - exists (plain "app" [badAlias]), [], [].
    repeat split; [apply walksTo_here | constructor].
  - repeat constructor.
Defined.

(** C9, as stated, fails: in this tree the subcommand [d1] has a two-letter
    short flag, yet the error of the construction is the one of the two
    default subcommands of the root; it identifies no subcommand and no
    short flag. *)
Lemma bad_short_flag_error_not_named :
  subcommandIn defaultsFirst defaultWithShortFlag
  /\ shortFlag defaultWithShortFlag = Some "xy"
  /\ String.length "xy" <> 1
  /\ createCommand defaultsFirst
     = Throw (Clap (ClapConfigurationError
                      (multipleDefaultMessage "app" ["d1"; "d2"])))
  /\ forall n f,
       createCommand defaultsFirst
       <> Throw (Clap (ClapConfigurationError (shortFlagMessage n f))).
Proof.
  split.
  { exists defaultsFirst. split; [apply inTree_here | cbn; auto]. }
  split; [reflexivity |].
  split; [cbn; lia |].
  assert (E : createCommand defaultsFirst
              = Throw (Clap (ClapConfigurationError
                               (multipleDefaultMessage "app" ["d1"; "d2"]))))
    by reflexivity.
  split; [exact E |].
  intros n f H. rewrite E in H.
  injection H as H. unfold shortFlagMessage, multipleDefaultMessage in H.
  cbn [append] in H. discriminate H.
Qed.

(** The empty string is where the runtime check is silent: it is neither one
    character long nor rejected, as a [shortFlag] or as an alias. *)
Remark empty_short_flag_passes :
  createCommand emptyShortFlags = Ok (mkCommandObject emptyShortFlags).
Proof. reflexivity. Qed.

End ValidateConformance.

(* ================================================================= *)
(** * Resolution against the specification *)

Module CommandConformance.

Import Spec Examples ValidateFacts CommandFacts.

(** C1.  The claim fails on the code at the empty argument sequence.  The
    command [greet] has an action, and [handle] returns without invoking
    it; the command [strict] requires a subcommand, and [handle] returns
    without failing.  In both cases the log of invoked callbacks is
    empty. *)
Theorem handle_empty_invokes_nothing :
  createCommand greet = Ok (mkCommandObject greet)
  /\ action greet = Some 1
  /\ run (handle (mkCommandObject greet) (inr [])) = ([], Ok tt)
  /\ createCommand strict = Ok (mkCommandObject strict)
  /\ subcommandRequired strict = true
  /\ run (handle (mkCommandObject strict) (inr [])) = ([], Ok tt).
Proof. repeat split; reflexivity. Qed.

(** C2, as amended.  For every options value that passes validation,
    [handle] of the constructed command never invokes a callback: the log is
    left as it was.  On an empty token sequence it returns normally.  On a
    non-empty one it throws on the first iteration, without advancing the
    current command: the [ClapSubcommandLongFlagValueError] of
    [matchSubcommand] when the first token is a long flag with an inline
    value that selects one of the root's subcommands, and otherwise a
    [ClapUnreachableError] (kind library-bug), the result of the match being
    discarded. *)
Theorem handle_throws_on_first_token (opts : CommandOptions) (c : Command)
  (args_ : Arguments + list string) :
  createCommand opts = Ok c ->
  (forall log, fst (handle c args_ log) = log)
  /\ match tokensOf args_ with
     | [] => snd (run (handle c args_)) = Ok tt
     | arg :: _ =>
         (exists l v s,
             arg = Long l (Some v)
             /\ In s (subcommands opts)
             /\ longSelects s l
             /\ snd (run (handle c args_))
                = Throw (Clap (ClapSubcommandLongFlagValueError l v)))
         \/ ((forall l v s,
                 arg = Long l (Some v) ->
                 In s (subcommands opts) ->
                 ~ longSelects s l)
             /\ snd (run (handle c args_))
                = Throw (Clap (ClapUnreachableError (unreachableMessage arg)))
             /\ kind (ClapUnreachableError (unreachableMessage arg))
                = LibraryBug)
     end.
Proof.
  intros Hc. apply createCommand_ok in Hc. destruct Hc as [Hv Hopts].
  split; [intros log; apply handle_log |].
  unfold run, handle, tokensOf. rewrite Hopts.
  replace (parsed match args_ with
                  | inl a => a
                  | inr rawArgs => parseArguments rawArgs
                  end)
    with (match args_ with
          | inl a => parsed a
          | inr rawArgs => parsed (parseArguments rawArgs)
          end) by (destruct args_; reflexivity).
  destruct (match args_ with
            | inl a => parsed a
            | inr rawArgs => parsed (parseArguments rawArgs)
            end) as [| arg rest]; [reflexivity |].
  rewrite handleLoop_cons. cbn [snd].
  destruct (matchSubcommand opts arg) as [m | e] eqn:E.
  - right. split; [| split; reflexivity].
    intros l v s -> Hin Hsel.
    assert (Hb : longSelectsb s l = true).
    { apply longSelectsb_complete; [| exact Hsel].
      apply (subcommandIn_validates opts s); [| exact Hv].
      exists opts. split; [apply inTree_here | exact Hin]. }
    destruct (matchSubcommand_long opts s l (Some v) Hin Hb)
      as (s' & pre & post & _ & _ & _ & H).
    rewrite H in E. discriminate E.
  - left. destruct (matchSubcommand_throw opts arg e E)
      as (l & v & s & -> & Hin & Hb & ->).
    exists l, v, s. repeat split; [exact Hin | now apply longSelectsb_sound].
Qed.

Lemma handle_throws_on_first_token_witness :
  createCommand bundled = Ok (mkCommandObject bundled)
  /\ snd (run (handle (mkCommandObject bundled) (inr ["-ab"; "x"])))
     = Throw (Clap (ClapUnreachableError (unreachableMessage (Short "-ab")))).
Proof.
  assert (C : createCommand bundled = Ok (mkCommandObject bundled))
    by reflexivity.
  split; [exact C |].
  destruct (proj2 (handle_throws_on_first_token bundled (mkCommandObject bundled)
                     (inr ["-ab"; "x"]) C))
    as [(l & v & s & E & _) | (_ & H & _)]; [discriminate E | exact H].
Defined.

(** C2, as stated, fails: the options [flagged] pass validation, and on the
    one argument [--build=x] (or [--make=x], by the alias) [handle] throws
    the invalid-user-input error of the subcommand selector that carries a
    value, not a [ClapUnreachableError]. *)
Lemma handle_not_always_unreachable :
  createCommand flagged = Ok (mkCommandObject flagged)
  /\ snd (run (handle (mkCommandObject flagged) (inr ["--build=x"])))
     = Throw (Clap (ClapSubcommandLongFlagValueError "--build" "x"))
  /\ snd (run (handle (mkCommandObject flagged) (inr ["--make=x"])))
     = Throw (Clap (ClapSubcommandLongFlagValueError "--make" "x"))
  /\ kind (ClapSubcommandLongFlagValueError "--build" "x") = InvalidUserInput
  /\ forall msg,
       snd (run (handle (mkCommandObject flagged) (inr ["--build=x"])))
       <> Throw (Clap (ClapUnreachableError msg)).
Proof.
  repeat split; try reflexivity.
  intros msg H. cbv in H. discriminate H.
Qed.

(** C6.  The claim fails on the code where [handle] is to re-inject the
    remaining letters.  On [-ab], [matchSubcommand] selects the subcommand
    [a] and hands back the bundle [-b], and [handle] drops both: it throws
    a [ClapUnreachableError] at this first token, having invoked nothing. *)
Theorem handle_drops_remaining_bundle :
  createCommand bundled = Ok (mkCommandObject bundled)
  /\ parsed (parseArguments ["-ab"]) = [Short "-ab"]
  /\ matchSubcommand bundled (Short "-ab")
     = Ok (mkMatch (Some subA) (Some (Short "-b")))
  /\ matchSubcommand bundled (Short "-a") = Ok (mkMatch (Some subA) None)
  /\ run (handle (mkCommandObject bundled) (inr ["-ab"]))
     = ([], Throw (Clap (ClapUnreachableError (unreachableMessage (Short "-ab"))))).
Proof. repeat split; reflexivity. Qed.

Lemma longSelectsb_false (s : SubcommandDefinition) (l : string) :
  validateSubcommandDefinition s = Ok tt ->
  longSelectsb s l = false -> ~ longSelects s l.
Proof.
  intros Hv Hb Hsel. rewrite (longSelectsb_complete s l Hv Hsel) in Hb.
  discriminate Hb.
Qed.

(** What [matchSubcommand] does with a long flag that selects a subcommand
    (the part of the behaviour on which the code is complete).  In a tree
    that passed validation, let a long-flag token's name,
    minus its two dashes, be the [longFlag] or one of the [longFlagAliases]
    of a subcommand of the command being resolved.  If the token carries an
    inline value, [matchSubcommand] throws the error of reason
    [SubcommandLongFlagValue] and kind invalid-user-input that reports the
    flag and the value, and [handle] lets it out when the token is the
    first one.  If it carries none, [matchSubcommand] returns, without
    error and without a next argument, the first subcommand in declaration
    order that the name selects. *)
Theorem long_flag_selects_or_rejects_value (root : CommandOptions)
  (c : Command) (command : CommandDefinition) (s : SubcommandDefinition)
  (l v : string) :
  createCommand root = Ok c ->
  inTree root command ->
  In s (subcommands command) ->
  longSelects s l ->
  (matchSubcommand command (Long l (Some v))
   = Throw (Clap (ClapSubcommandLongFlagValueError l v))
   /\ reason (ClapSubcommandLongFlagValueError l v) = SubcommandLongFlagValue
   /\ kind (ClapSubcommandLongFlagValueError l v) = InvalidUserInput
   /\ message (ClapSubcommandLongFlagValueError l v)
      = ("The flag " ++ l
         ++ " cannot take a value, because it is a subcommand. Value provided: "
         ++ v)%string)
  /\ (command = root ->
      forall rawArgs rest log,
        handle c (inl (mkArguments rawArgs (Long l (Some v) :: rest))) log
        = (log, Throw (Clap (ClapSubcommandLongFlagValueError l v))))
  /\ exists s' before after,
       subcommands command = before ++ s' :: after
       /\ longSelects s' l
       /\ Forall (fun p => ~ longSelects p l) before
       /\ matchSubcommand command (Long l None) = Ok (mkMatch (Some s') None).
Proof.
  intros Hc Htree Hin Hsel.
  apply createCommand_ok in Hc. destruct Hc as [Hv Hopts].
  pose proof (inTree_validates root command Htree Hv) as Hcmd.
  apply validateCommandDefinition_ok in Hcmd. destruct Hcmd as (_ & _ & Hsubs).
  rewrite Forall_forall in Hsubs.
  assert (Hb : longSelectsb s l = true)
    by (apply longSelectsb_complete; [now apply Hsubs | exact Hsel]).
  assert (Hthrow : matchSubcommand command (Long l (Some v))
                   = Throw (Clap (ClapSubcommandLongFlagValueError l v))).
  { destruct (matchSubcommand_long command s l (Some v) Hin Hb)
      as (s' & pre & post & _ & _ & _ & H). exact H. }
  split; [repeat split; exact Hthrow |].
  split.
  - intros -> rawArgs rest log. unfold handle. cbn [parsed].
    rewrite handleLoop_cons, Hopts, Hthrow. reflexivity.
  - destruct (matchSubcommand_long command s l None Hin Hb)
      as (s' & pre & post & Hsplit & Hs' & Hpre & H).
    exists s', pre, post.
    split; [exact Hsplit |].
    split; [now apply longSelectsb_sound |].
    split; [| exact H].
    apply Forall_forall. intros p Hp.
    apply longSelectsb_false.
    + apply Hsubs. rewrite Hsplit. apply in_or_app. now left.
    + rewrite Forall_forall in Hpre. now apply Hpre.
Qed.

Lemma long_flag_selects_or_rejects_value_witness :
  createCommand flagged = Ok (mkCommandObject flagged)
  /\ inTree flagged flagged
  /\ In buildFlag (subcommands flagged)
  /\ longSelects buildFlag "--make"
  /\ matchSubcommand flagged (Long "--make" (Some "x"))
     = Throw (Clap (ClapSubcommandLongFlagValueError "--make" "x"))
  /\ matchSubcommand flagged (Long "--make" None)
     = Ok (mkMatch (Some buildFlag) None).
Proof.
  assert (C : createCommand flagged = Ok (mkCommandObject flagged))
    by reflexivity.
  assert (T : inTree flagged flagged) by apply inTree_here.
  assert (I : In buildFlag (subcommands flagged)) by (cbn; auto).
  assert (S : longSelects buildFlag "--make") by (right; cbn; auto).
  split; [exact C | split; [exact T | split; [exact I | split; [exact S |]]]].
  split.
  - exact (proj1 (proj1 (long_flag_selects_or_rejects_value
                           flagged (mkCommandObject flagged) flagged buildFlag
                           "--make" "x" C T I S))).
  - reflexivity.
Defined.

(** C7.  The claim holds on the code for a selector that carries a value
    and fails for one that carries none.  On [--build=x], resolution throws
    the error of reason [SubcommandLongFlagValue] and kind invalid-user-input
    that reports the flag and the value.  On [--build], [matchSubcommand]
    does return the subcommand [build], but [handle] discards that result: it
    throws a [ClapUnreachableError] (kind library-bug) at this first token
    and the current command is never advanced, so resolution selects
    nothing and ends in an error. *)
Theorem handle_long_flag_selects_nothing :
  createCommand flagged = Ok (mkCommandObject flagged)
  /\ longSelects buildFlag "--build"
  /\ run (handle (mkCommandObject flagged) (inr ["--build=x"]))
     = ([], Throw (Clap (ClapSubcommandLongFlagValueError "--build" "x")))
  /\ reason (ClapSubcommandLongFlagValueError "--build" "x")
     = SubcommandLongFlagValue
  /\ kind (ClapSubcommandLongFlagValueError "--build" "x") = InvalidUserInput
  /\ parsed (parseArguments ["--build"]) = [Long "--build" None]
  /\ matchSubcommand flagged (Long "--build" None)
     = Ok (mkMatch (Some buildFlag) None)
  /\ run (handle (mkCommandObject flagged) (inr ["--build"]))
     = ([], Throw (Clap (ClapUnreachableError
                           (unreachableMessage (Long "--build" None)))))
  /\ kind (ClapUnreachableError (unreachableMessage (Long "--build" None)))
     = LibraryBug.
Proof.
  split; [reflexivity |].
  split; [left; reflexivity |].
  repeat split; reflexivity.
Qed.

End CommandConformance.

(* ================================================================= *)
(** * Further properties of the tokenizer and of the flag queries *)

Module ArgsLaws.

Import Spec Behaviour ArgsFacts QueryFacts.

Lemma tokenize_app (xs ys : list string) (seen : bool) :
  tokenize seen (xs ++ ys)
  = tokenize seen xs ++ tokenize (seen || existsb isMarker xs) ys.
Proof.
  revert seen. induction xs as [| x rest IH]; intros seen; cbn [app tokenize existsb].
  - now rewrite orb_false_r.
  - rewrite IH. unfold isMarker at 2. now rewrite orb_assoc.
Qed.

Lemma tokenize_seen (ys : list string) : tokenize true ys = map Text ys.
Proof. induction ys as [| y rest IH]; cbn; [reflexivity | now rewrite IH]. Qed.

Lemma existsb_isMarker (xs : list string) :
  existsb isMarker xs = false <-> ~ In "--" xs.
Proof.
  induction xs as [| x rest IH]; cbn [existsb In].
  - split; [intros _ [] | reflexivity].
  - unfold isMarker at 1. rewrite orb_false_iff, IH, String.eqb_neq.
    split.
    + intros [H1 H2] [E | E]; [congruence | exact (H2 E)].
    + intros H. split; [intros E; apply H; now left | intros E; apply H; now right].
Qed.

(** X1.  Tokenizing a concatenation: the tokens of [xs ++ ys] are the tokens
    of [xs] followed by the tokens of [ys], unless [xs] holds the
    end-of-options marker, in which case every string of [ys] is lowered to
    [Text]. *)
Theorem parseArguments_app (xs ys : list string) :
  parsed (parseArguments (xs ++ ys))
  = parsed (parseArguments xs)
    ++ (if existsb isMarker xs then map Text ys
        else parsed (parseArguments ys)).
Proof.
  rewrite !parseArguments_tokenize, tokenize_app. cbn [orb].
  destruct (existsb isMarker xs); [now rewrite tokenize_seen | reflexivity].
Qed.

Lemma classify_untokenize (seen : bool) (s : string) :
  untokenize (classify seen s) = s.
Proof.
  unfold classify. destruct seen; [reflexivity |].
  destruct (String.eqb_spec s "--") as [-> | _]; [reflexivity |].
  destruct (String.prefix "--" s).
  - destruct (splitAtEquals s) as [[n v] |] eqn:E; [| reflexivity].
    destruct (splitAtEquals_sound s n v E) as [-> _]. reflexivity.
  - destruct (String.prefix "-" s); reflexivity.
Qed.

(** X2.  Tokenization loses nothing: writing every token back as the string
    it stands for (a long flag with its inline value rejoined by [=], the
    marker as two dashes) gives the raw argument list again. *)
Theorem untokenize_parseArguments (rawArgs : list string) :
  map untokenize (parsed (parseArguments rawArgs)) = rawArgs.
Proof.
  rewrite parseArguments_tokenize. generalize false.
  induction rawArgs as [| s rest IH]; intros seen; cbn [tokenize map].
  - reflexivity.
  - now rewrite classify_untokenize, IH.
Qed.

Lemma prefix_dashes_split (s n v : string) :
  String.prefix "--" s = true ->
  splitAtEquals s = Some (n, v) ->
  String.prefix "--" n = true.
Proof.
  intros P E.
  destruct s as [| c1 [| c2 r]]; cbn [String.prefix] in P;
    try discriminate P.
  - destruct (ascii_dec "-" c1); discriminate P.
  - destruct (ascii_dec "-" c1) as [<- |]; [| discriminate P].
    destruct (ascii_dec "-" c2) as [<- |]; [| discriminate P].
    cbn [splitAtEquals] in E.
    replace (Ascii.eqb "-" "=") with false in E by reflexivity.
    destruct (splitAtEquals r) as [[n' v'] |]; [| discriminate E].
    injection E as <- <-. cbn [String.prefix].
    destruct (ascii_dec "-" "-") as [_ | N]; [apply prefix_empty | congruence].
Qed.

Lemma classify_wellShaped (seen : bool) (s : string) :
  wellShaped (classify seen s).
Proof.
  unfold classify. destruct seen; [exact I |].
  destruct (String.eqb s "--"); [exact I |].
  destruct (String.prefix "--" s) eqn:P2.
  - destruct (splitAtEquals s) as [[n v] |] eqn:E; cbn [wellShaped].
    + exact (prefix_dashes_split s n v P2 E).
    + exact P2.
  - destruct (String.prefix "-" s) eqn:P1; cbn [wellShaped];
      [now split | exact I].
Qed.

Lemma classify_text (s t : string) :
  classify false s = Text t -> t = s /\ String.prefix "-" s = false.
Proof.
  unfold classify.
  destruct (String.eqb s "--"); [intros X; discriminate X |].
  destruct (String.prefix "--" s).
  - destruct (splitAtEquals s) as [[n v] |]; intros X; discriminate X.
  - destruct (String.prefix "-" s); intros X; [discriminate X |].
    injection X as <-. now split.
Qed.

(** X3.  The tokens have the shapes their type declares: the name of every
    long-flag token starts with two dashes (so the cast of the split name is
    sound), every bundle starts with one dash and not with two, and a [Text]
    token produced before end-of-options was seen does not start with a
    dash. *)
Theorem parseArguments_wellShaped (rawArgs : list string) :
  Forall wellShaped (parsed (parseArguments rawArgs))
  /\ forall i t,
       nth_error (parsed (parseArguments rawArgs)) i = Some (Text t) ->
       endOfOptionsSeen rawArgs i = false ->
       String.prefix "-" t = false.
Proof.
  rewrite parseArguments_tokenize. split.
  - generalize false. induction rawArgs as [| s rest IH]; intros seen;
      cbn [tokenize]; constructor; [apply classify_wellShaped | apply IH].
  - intros i t Hi Hseen. rewrite tokenize_nth, Hseen in Hi.
    destruct (nth_error rawArgs i) as [s |]; [| discriminate Hi].
    cbn in Hi. injection Hi as Hi.
    apply classify_text in Hi. destruct Hi as [-> P]. exact P.
Qed.

(** ** The queries and the marker *)

Lemma hasLoop_app (long short : option string) (p q : list ParsedArgument) :
  hasLoop long short (p ++ q) = hasLoop long short p || hasLoop long short q.
Proof.
  induction p as [| tok rest IH]; cbn [app hasLoop]; [reflexivity |].
  destruct (hasLong long tok); [reflexivity |].
  destruct (hasShort short tok); [reflexivity | exact IH].
Qed.

Lemma hasLoop_inert (long short : option string) (q : list ParsedArgument) :
  forallb inert q = true -> hasLoop long short q = false.
Proof.
  induction q as [| tok rest IH]; cbn [forallb hasLoop]; [reflexivity |].
  intros H. apply andb_true_iff in H. destruct H as [Ht Hrest].
  destruct tok; try discriminate Ht; cbn [hasLong hasShort]; now apply IH.
Qed.

Lemma inert_texts (ys : list string) : forallb inert (map Text ys) = true.
Proof. induction ys as [| y rest IH]; cbn; [reflexivity | exact IH]. Qed.

Lemma combine_seq_app {A : Type} (p q : list A) (k : nat) :
  combine (seq k (List.length (p ++ q))) (p ++ q)
  = combine (seq k (List.length p)) p
    ++ combine (seq (k + List.length p) (List.length q)) q.
Proof.
  revert k. induction p as [| x rest IH]; intros k; cbn [app List.length seq combine].
  - now rewrite Nat.add_0_r.
  - rewrite IH. now rewrite Nat.add_succ_r.
Qed.

Lemma fold_left_ext_in {A B : Type} (f g : A -> B -> A) (l : list B) :
  (forall a x, In x l -> f a x = g a x) ->
  forall a, fold_left f l a = fold_left g l a.
Proof.
  induction l as [| x rest IH]; intros H a; cbn [fold_left]; [reflexivity |].
  rewrite (H a x) by now left.
  apply IH. intros a' x' Hin. apply H. now right.
Qed.

Lemma getStep_inert (long short : option string) (all : list ParsedArgument)
  (v : option string) (i : nat) (tok : ParsedArgument) :
  inert tok = true -> getStep long short all v (i, tok) = v.
Proof. destruct tok; intros H; try discriminate H; reflexivity. Qed.

Lemma fold_getStep_inert (long short : option string)
  (all tail : list ParsedArgument) :
  forallb inert tail = true ->
  forall k v,
    fold_left (getStep long short all)
              (combine (seq k (List.length tail)) tail) v = v.
Proof.
  induction tail as [| tok rest IH]; intros H k v; [reflexivity |].
  cbn [forallb] in H. apply andb_true_iff in H. destruct H as [Ht Hrest].
  cbn [List.length seq combine fold_left].
  rewrite getStep_inert by exact Ht. now apply IH.
Qed.

(** The look-ahead of [get] past the end of [pre] sees nothing or a token
    that is not text: either way the value is the empty string. *)
Lemma getStep_lookahead (long short : option string)
  (pre tail : list ParsedArgument) (v : option string) (i : nat)
  (tok : ParsedArgument) :
  i < List.length pre ->
  match tail with Text _ :: _ => False | _ => True end ->
  getStep long short (pre ++ tail) v (i, tok) = getStep long short pre v (i, tok).
Proof.
  intros Hi Htail. unfold getStep.
  destruct tok as [t | l a | sh |]; try reflexivity.
  destruct (Js.strEqOpt l long); [| reflexivity].
  destruct a; [reflexivity |].
  destruct (Nat.lt_ge_cases (i + 1) (List.length pre)) as [Hlt | Hge].
  - now rewrite nth_error_app1.
  - rewrite nth_error_app2 by exact Hge.
    replace (i + 1 - List.length pre) with 0 by lia.
    replace (nth_error pre (i + 1)) with (@None ParsedArgument)
      by (symmetry; now apply nth_error_None).
    destruct tail as [| [] ?]; try reflexivity. destruct Htail.
Qed.

Lemma get_fold_tail (long short : option string)
  (pre tail : list ParsedArgument) :
  forallb inert tail = true ->
  match tail with Text _ :: _ => False | _ => True end ->
  fold_left (getStep long short (pre ++ tail)) (enumerate (pre ++ tail)) None
  = fold_left (getStep long short pre) (enumerate pre) None.
Proof.
  intros Hinert Hhead. unfold enumerate.
  rewrite combine_seq_app, fold_left_app, fold_getStep_inert by exact Hinert.
  apply fold_left_ext_in. intros v [i tok] Hin.
  apply getStep_lookahead; [| exact Hhead].
  apply in_combine_l, in_seq in Hin. lia.
Qed.

Lemma parsed_marker (xs ys : list string) :
  ~ In "--" xs ->
  parsed (parseArguments (xs ++ "--" :: ys))
  = parsed (parseArguments xs) ++ EndOfOptions :: map Text ys.
Proof.
  intros H. rewrite !parseArguments_tokenize, tokenize_app.
  rewrite (proj2 (existsb_isMarker xs) H).
  cbn. now rewrite tokenize_seen.
Qed.

(** X4.  Nothing from the first end-of-options marker on is seen by the
    queries: with no marker in [xs], [has] and [get] answer on
    [xs ++ "--" :: ys] what they answer on [xs] alone, for every pair of
    parameters (also when they throw). *)
Theorem queries_stop_at_marker (xs ys : list string) (a : string)
  (b : option string) :
  ~ In "--" xs ->
  has (parseArguments (xs ++ "--" :: ys)) a b = has (parseArguments xs) a b
  /\ get (parseArguments (xs ++ "--" :: ys)) a b = get (parseArguments xs) a b.
Proof.
  intros H. unfold has, get. rewrite (parsed_marker xs ys H).
  assert (Hinert : forallb inert (EndOfOptions :: map Text ys) = true)
    by (cbn [forallb inert andb]; apply inert_texts).
  destruct (flagSpec a b) as [[long short] | e]; cbn [Errors.bind];
    [| split; reflexivity].
  split.
  - rewrite hasLoop_app, (hasLoop_inert long short _ Hinert).
    now rewrite orb_false_r.
  - now rewrite get_fold_tail.
Qed.

Lemma queries_stop_at_marker_witness :
  ~ In "--" ["--add"; "3"]
  /\ has (parseArguments (["--add"; "3"] ++ "--" :: ["--mul"; "-a"])) "--mul" None
     = has (parseArguments ["--add"; "3"]) "--mul" None
  /\ get (parseArguments (["--add"; "3"] ++ "--" :: ["--mul"; "-a"])) "--add" None
     = get (parseArguments ["--add"; "3"]) "--add" None.
Proof.
  assert (N : ~ In "--" ["--add"; "3"]).
  { intros [E | [E | []]]; discriminate E. }
  split; [exact N |]. split.
  - exact (proj1 (queries_stop_at_marker ["--add"; "3"] ["--mul"; "-a"]
                    "--mul" None N)).
  - exact (proj2 (queries_stop_at_marker ["--add"; "3"] ["--mul"; "-a"]
                    "--add" None N)).
Defined.

(** X5.  [has] is monotone in the argument list: a flag that is present
    stays present when further arguments are appended. *)
Theorem has_app (xs ys : list string) (a : string) (b : option string) :
  has (parseArguments xs) a b = Ok true ->
  has (parseArguments (xs ++ ys)) a b = Ok true.
Proof.
  unfold has. rewrite !parseArguments_tokenize, tokenize_app.
  destruct (flagSpec a b) as [[long short] | e]; cbn [Errors.bind];
    [| intros X; discriminate X].
  intros H. injection H as H. now rewrite hasLoop_app, H.
Qed.

Lemma has_app_witness :
  has (parseArguments ["-aBc"]) "-B" None = Ok true
  /\ has (parseArguments (["-aBc"] ++ ["--"; "x"])) "-B" None = Ok true.
Proof.
  assert (H : has (parseArguments ["-aBc"]) "-B" None = Ok true) by reflexivity.
  split; [exact H |].
  exact (has_app ["-aBc"] ["--"; "x"] "-B" None H).
Defined.

Lemma prefix_two_one (s : string) :
  String.prefix "--" s = true -> String.prefix "-" s = true.
Proof.
  destruct s as [| c r]; cbn [String.prefix]; [intros X; discriminate X |].
  destruct (ascii_dec "-" c); intros X; [apply prefix_empty | discriminate X].
Qed.

(** X6.  The only failure of the queries: [has] and [get] throw the
    [TypeError] "A flag must start with a dash." exactly when their first
    parameter does not start with a dash, whatever the tokens and whatever
    the second parameter, which is never checked; otherwise both return. *)
Theorem queries_throw_iff_no_dash (args : Arguments) (a : string)
  (b : option string) :
  if Js.startsWith a "-"
  then (exists r, has args a b = Ok r) /\ (exists v, get args a b = Ok v)
  else has args a b = Throw (TypeError "A flag must start with a dash.")
       /\ get args a b = Throw (TypeError "A flag must start with a dash.").
Proof.
  unfold has, get, flagSpec, Js.startsWith.
  destruct (String.prefix "-" a) eqn:P1.
  - destruct (String.prefix "--" a); cbn [Errors.bind]; split; eexists; reflexivity.
  - destruct (String.prefix "--" a) eqn:P2.
    + apply prefix_two_one in P2. congruence.
    + split; reflexivity.
Qed.

Lemma hasLoop_cons_rest (long short : option string) (tok : ParsedArgument)
  (rest : list ParsedArgument) :
  hasLoop long short rest = true -> hasLoop long short (tok :: rest) = true.
Proof.
  intros H. cbn [hasLoop].
  destruct (hasLong long tok); [reflexivity |].
  destruct (hasShort short tok); [reflexivity | exact H].
Qed.

Lemma contribution_has (long : option string) (letter : option ascii)
  (tok : ParsedArgument) (next : option ParsedArgument) (v : string) :
  contribution long letter tok next = Some v ->
  hasLong long tok = true \/ hasShort (option_map shortName letter) tok = true.
Proof.
  unfold contribution. destruct tok as [t | l a | sh |];
    try (intros X; discriminate X).
  - destruct (Js.strEqOpt l long) eqn:E; [| intros X; discriminate X].
    intros _. left. exact E.
  - destruct letter as [c |]; [| intros X; discriminate X].
    destruct sh as [| x [| c' rest]]; cbn [letters];
      try (intros X; discriminate X).
    destruct (Ascii.eqb_spec c' c) as [-> | _]; [| intros X; discriminate X].
    intros _. right. cbn [option_map hasShort].
    unfold shortName at 1. cbn [Js.truthy String.eqb negb andb].
    unfold shortName. cbn [Js.charAt String.get Js.toSearchString].
    apply includes_char. right. now left.
Qed.

Lemma lastContribution_has (long : option string) (letter : option ascii)
  (toks : list ParsedArgument) (v : string) :
  lastContribution long letter toks = Some v ->
  hasLoop long (option_map shortName letter) toks = true.
Proof.
  revert v. induction toks as [| tok rest IH]; intros v; cbn [lastContribution];
    [intros X; discriminate X |].
  destruct (lastContribution long letter rest) as [w |].
  - intros _. apply hasLoop_cons_rest, (IH w). reflexivity.
  - intros H. apply contribution_has in H. cbn [hasLoop].
    destruct H as [-> | H]; [reflexivity |].
    destruct (hasLong long tok); [reflexivity | now rewrite H].
Qed.

(** X7.  A value implies presence: for a well-formed spec, away from the
    bare dash queried by a long name alone, whenever [get] returns a value
    [has] returns [true]. *)
Theorem get_value_implies_has (rawArgs : list string) (a : string)
  (b long : option string) (letter : option ascii) (v : string) :
  wellFormedSpec a b long letter ->
  (letter = None -> ~ In (Short "-") (parsed (parseArguments rawArgs))) ->
  get (parseArguments rawArgs) a b = Ok (Some v) ->
  has (parseArguments rawArgs) a b = Ok true.
Proof.
  intros WF NoDash Hget.
  assert (NoSlip : letter = None ->
                   forall sh, In (Short sh) (parsed (parseArguments rawArgs)) ->
                              2 <= String.length sh).
  { intros E sh Hin. specialize (NoDash E).
    assert (P : String.prefix "-" sh = true).
    { rewrite parseArguments_tokenize in Hin. exact (tokenize_short _ _ _ Hin). }
    rewrite (prefix_dash sh P) in Hin |- *.
    destruct (letters sh) as [| c r]; [elim NoDash; exact Hin | cbn; lia]. }
  rewrite (get_lastContribution _ a b long letter WF NoSlip) in Hget.
  injection Hget as Hget. apply lastContribution_has in Hget.
  unfold has. destruct (flagSpec_wellFormed a b long letter WF) as (sh & -> & ->).
  cbn [Errors.bind]. f_equal. exact Hget.
Qed.

Lemma get_value_implies_has_witness :
  wellFormedSpec "--multiply" (Some "-m") (Some "--multiply") (Some "m"%char)
  /\ get (parseArguments ["5"; "-m2"]) "--multiply" (Some "-m") = Ok (Some "2")
  /\ has (parseArguments ["5"; "-m2"]) "--multiply" (Some "-m") = Ok true.
Proof.
  assert (W : wellFormedSpec "--multiply" (Some "-m") (Some "--multiply")
                             (Some "m"%char)).
  { apply (wf_pair "--multiply" "m"%char); [reflexivity | discriminate]. }
  assert (G : get (parseArguments ["5"; "-m2"]) "--multiply" (Some "-m")
              = Ok (Some "2")) by reflexivity.
  split; [exact W | split; [exact G |]].
  apply (get_value_implies_has ["5"; "-m2"] "--multiply" (Some "-m")
           (Some "--multiply") (Some "m"%char) "2" W); [| exact G].
  intros E; discriminate E.
Defined.

(** X8.  Last occurrence wins whenever the spec has a short name: for a
    short name alone or a (long, short) pair, and for every token list,
    [get] returns the contribution of the last contributing token, and
    [undefined] when no token contributes. *)
Theorem get_with_short_name (args : Arguments) (a : string)
  (b long : option string) (c : ascii) :
  wellFormedSpec a b long (Some c) ->
  get args a b = Ok (lastContribution long (Some c) (parsed args)).
Proof.
  intros WF. apply get_lastContribution; [exact WF |].
  intros E; discriminate E.
Qed.

Lemma get_with_short_name_witness :
  wellFormedSpec "-a" None None (Some "a"%char)
  /\ get (parseArguments ["-a1"; "-"; "-ba"; "-a2"; "--"; "-a3"]) "-a" None
     = Ok (Some "2").
Proof.
  assert (W : wellFormedSpec "-a" None None (Some "a"%char)).
  { apply (wf_short "a"%char). discriminate. }
  split; [exact W |].
  exact (get_with_short_name
           (parseArguments ["-a1"; "-"; "-ba"; "-a2"; "--"; "-a3"])
           "-a" None None "a"%char W).
Defined.

(** ** Order, and the place of the marker *)

Lemma tokenize_no_marker (xs : list string) :
  existsb isMarker xs = false ->
  tokenize false xs = map (classify false) xs.
Proof.
  induction xs as [| x rest IH]; cbn [existsb tokenize map]; [reflexivity |].
  intros H. apply orb_false_iff in H. destruct H as [Hx Hrest].
  unfold isMarker in Hx. rewrite Hx. cbn [orb]. now rewrite IH.
Qed.

Lemma hasLoop_existsb (long short : option string) (toks : list ParsedArgument) :
  hasLoop long short toks
  = existsb (fun tok => hasLong long tok || hasShort short tok) toks.
Proof.
  induction toks as [| tok rest IH]; cbn [hasLoop existsb]; [reflexivity |].
  destruct (hasLong long tok); [reflexivity |].
  destruct (hasShort short tok); [reflexivity | exact IH].
Qed.

Lemma existsb_Permutation {A : Type} (f : A -> bool) (l l' : list A) :
  Permutation l l' -> existsb f l = existsb f l'.
Proof.
  induction 1 as [| x l l' _ IH | x y l | l l' l'' _ IH1 _ IH2]; cbn [existsb].
  - reflexivity.
  - now rewrite IH.
  - now rewrite !orb_assoc, (orb_comm (f y) (f x)).
  - now rewrite IH1.
Qed.

(** X21.  [has] does not depend on the order of the arguments: on two
    argument lists without the end-of-options marker that are permutations of
    each other it gives the same answer (or throws the same error), for
    every pair of parameters. *)
Theorem has_Permutation (xs ys : list string) (a : string) (b : option string) :
  ~ In "--" xs ->
  Permutation xs ys ->
  has (parseArguments xs) a b = has (parseArguments ys) a b.
Proof.
  intros Hx Hperm.
  assert (Hy : ~ In "--" ys).
  { intros H. apply Hx. exact (Permutation_in _ (Permutation_sym Hperm) H). }
  unfold has. rewrite !parseArguments_tokenize.
  rewrite (tokenize_no_marker xs) by now apply existsb_isMarker.
  rewrite (tokenize_no_marker ys) by now apply existsb_isMarker.
  destruct (flagSpec a b) as [[long short] | e]; cbn [Errors.bind];
    [| reflexivity].
  rewrite !hasLoop_existsb. f_equal.
  apply existsb_Permutation. now apply Permutation_map.
Qed.

Lemma has_Permutation_witness :
  ~ In "--" ["--hello"; "world"; "-aBc"]
  /\ Permutation ["--hello"; "world"; "-aBc"] ["-aBc"; "world"; "--hello"]
  /\ has (parseArguments ["--hello"; "world"; "-aBc"]) "--hello" (Some "-c")
     = has (parseArguments ["-aBc"; "world"; "--hello"]) "--hello" (Some "-c").
Proof.
  assert (N : ~ In "--" ["--hello"; "world"; "-aBc"]).
  { intros [E | [E | [E | []]]]; discriminate E. }
  assert (P : Permutation ["--hello"; "world"; "-aBc"]
                          ["-aBc"; "world"; "--hello"]).
  { apply (perm_trans (l' := ["world"; "--hello"; "-aBc"])); [apply perm_swap |].
    apply (perm_trans (l' := ["world"; "-aBc"; "--hello"]));
      [apply perm_skip, perm_swap | apply perm_swap]. }
  split; [exact N | split; [exact P |]].
  exact (has_Permutation _ _ "--hello" (Some "-c") N P).
Defined.

Lemma classify_marker (seen : bool) (s : string) :
  classify seen s = EndOfOptions <-> seen = false /\ s = "--".
Proof.
  unfold classify. destruct seen.
  - split; [intros X; discriminate X | intros [X _]; discriminate X].
  - destruct (String.eqb_spec s "--") as [E | N].
    + split; [now split | reflexivity].
    + split; [| intros [_ E]; congruence].
      destruct (String.prefix "--" s).
      * destruct (splitAtEquals s) as [[n v] |]; intros X; discriminate X.
      * destruct (String.prefix "-" s); intros X; discriminate X.
Qed.

(** X22.  The end-of-options token marks the first marker and nothing else:
    the token at a position is [EndOfOptions] if and only if the raw string
    there is two dashes and no earlier raw string is.  So at most one such
    token is produced. *)
Theorem endOfOptions_iff_first_marker (rawArgs : list string) (i : nat) :
  nth_error (parsed (parseArguments rawArgs)) i = Some EndOfOptions
  <-> nth_error rawArgs i = Some "--" /\ endOfOptionsSeen rawArgs i = false.
Proof.
  rewrite parseArguments_tokenize, tokenize_nth. cbn [orb].
  destruct (nth_error rawArgs i) as [s |]; cbn [option_map].
  - split.
    + intros H. injection H as H. apply classify_marker in H.
      destruct H as [H ->]. now split.
    + intros [H Hseen]. injection H as ->. rewrite Hseen. reflexivity.
  - split; [intros X; discriminate X | intros [X _]; discriminate X].
Qed.

End ArgsLaws.

(* ================================================================= *)
(** * Further properties of the validator *)

Module ValidateLaws.

Import Spec Behaviour Examples Samples ValidateFacts.

Lemma bind_ok_intro (m k : Result unit) :
  m = Ok tt -> k = Ok tt -> (m ;;; k)%result = Ok tt.
Proof. intros -> ->. reflexivity. Qed.

Lemma subcommandRequired_ok (c : CommandDefinition) :
  validateSubcommandRequired c = Ok tt
  <-> (subcommandRequired c = true -> subcommands c <> []).
Proof.
  unfold validateSubcommandRequired.
  destruct (subcommandRequired c); destruct (subcommands c) as [| s rest];
    cbn [List.length Nat.eqb andb].
  - split; [intros X; discriminate X | intros H; elim (H eq_refl); reflexivity].
  - split; [intros _ _ X; discriminate X | reflexivity].
  - split; [intros _ X; discriminate X | reflexivity].
  - split; [intros _ X; discriminate X | reflexivity].
Qed.

Lemma multipleDefault_ok (c : CommandDefinition) :
  validateMultipleDefault c = Ok tt
  <-> List.length (filter isDefault (subcommands c)) <= 1.
Proof.
  unfold validateMultipleDefault, defaultNames. rewrite length_map.
  destruct (Nat.ltb_spec 1 (List.length (filter isDefault (subcommands c)))).
  - split; [intros X; discriminate X | lia].
  - split; [lia | reflexivity].
Qed.

Lemma commandRules_ok (c : CommandDefinition) :
  validateSubcommandRequired c = Ok tt /\ validateMultipleDefault c = Ok tt
  <-> commandRules c.
Proof.
  unfold commandRules. now rewrite subcommandRequired_ok, multipleDefault_ok.
Qed.

Lemma disallowWithoutFlag_ok (s : SubcommandDefinition) :
  validateDisallowWithoutFlag s = Ok tt
  <-> (disallowWithoutFlag s = true ->
       Js.truthy (longFlag s) = true \/ Js.truthy (shortFlag s) = true).
Proof.
  unfold validateDisallowWithoutFlag.
  destruct (disallowWithoutFlag s); cbn [andb];
    [| split; [intros _ X; discriminate X | reflexivity]].
  destruct (Js.truthy (longFlag s)); cbn [orb negb];
    [split; [intros _ _; now left | reflexivity] |].
  destruct (Js.truthy (shortFlag s)); cbn [negb];
    [split; [intros _ _; now right | reflexivity] |].
  split; [intros X; discriminate X |].
  intros H. destruct (H eq_refl) as [X | X]; discriminate X.
Qed.

Lemma shortFlag_ok (x : SubcommandDefinition) :
  validateShortFlagSingleChar x = Ok tt
  <-> (forall f, shortFlag x = Some f -> shortFlagPasses f).
Proof.
  unfold validateShortFlagSingleChar, shortFlagPasses.
  destruct (shortFlag x) as [f |].
  - cbn [Js.truthy].
    destruct (String.eqb_spec f EmptyString) as [E | N]; cbn [negb andb].
    + split; [intros _ f' H; injection H as <-; now left | reflexivity].
    + destruct (Nat.eqb_spec (String.length f) 1) as [E | L]; cbn [negb].
      * split; [intros _ f' H; injection H as <-; now right | reflexivity].
      * split; [intros X; discriminate X |].
        intros H. destruct (H f eq_refl); congruence.
  - split; [intros _ f X; discriminate X | reflexivity].
Qed.

Lemma shortFlagAliases_ok (x : SubcommandDefinition) :
  validateShortFlagAliasesSingleChar x = Ok tt
  <-> (forall a, In a (shortFlagAliases x) -> shortFlagPasses a).
Proof.
  unfold validateShortFlagAliasesSingleChar.
  rewrite forEach_ok, Forall_forall. split; intros H a Hin.
  - apply (proj1 (shortFlag_ok _) (H a Hin) a). reflexivity.
  - apply shortFlag_ok. intros f E. cbn in E. injection E as <-. now apply H.
Qed.

Lemma flagAliasesWithoutFlag_ok (x : SubcommandDefinition) (t : FlagType) :
  validateFlagAliasesWithoutFlag x t = Ok tt
  <-> (flagAliasesOf t x <> [] -> Js.truthy (flagOf t x) = true).
Proof.
  unfold validateFlagAliasesWithoutFlag.
  destruct (flagAliasesOf t x) as [| a rest]; cbn [List.length Nat.eqb negb andb].
  - split; [intros _ H; now elim H | reflexivity].
  - destruct (Js.truthy (flagOf t x)); cbn [negb].
    + split; reflexivity.
    + split; [intros X; discriminate X |].
      intros H. assert (X : false = true) by (apply H; discriminate).
      discriminate X.
Qed.

Lemma subcommandRules_ok (s : SubcommandDefinition) :
  validateSubcommandOwn s = Ok tt <-> subcommandRules s.
Proof.
  unfold subcommandRules.
  rewrite <- disallowWithoutFlag_ok, <- shortFlag_ok, <- shortFlagAliases_ok.
  rewrite <- (flagAliasesWithoutFlag_ok s long).
  rewrite <- (flagAliasesWithoutFlag_ok s short).
  unfold validateSubcommandOwn. split.
  - intros H.
    apply bind_ok in H. destruct H as [H1 H].
    apply bind_ok in H. destruct H as [H2 H].
    apply bind_ok in H. destruct H as [H3 H].
    apply bind_ok in H. destruct H as [H4 H5].
    now repeat split.
  - intros (H1 & H2 & H3 & H4 & H5).
    now rewrite H1, H2, H3, H4, H5.
Qed.

Lemma rules_validate (c : CommandDefinition) :
  (forall d, inTree c d -> commandRules d) ->
  (forall s, subcommandIn c s -> subcommandRules s) ->
  validateCommandDefinition c = Ok tt.
Proof.
  induction c as [c IH] using command_ind. intros Hc Hs.
  rewrite validateCommandDefinition_eq.
  destruct (proj2 (commandRules_ok c) (Hc c (inTree_here c))) as [-> ->].
  cbn [Errors.bind]. unfold validateSubcommands.
  apply forEach_ok, Forall_forall. intros s Hin.
  rewrite Forall_forall in IH.
  unfold validateSubcommandDefinition. apply bind_ok_intro.
  - apply (IH s Hin).
    + intros d Hd. apply Hc. exact (inTree_sub c s d Hin Hd).
    + intros x (parent & Hp & Hx). apply Hs.
      exists parent. split; [exact (inTree_sub c s parent Hin Hp) | exact Hx].
  - apply subcommandRules_ok, Hs.
    exists c. split; [apply inTree_here | exact Hin].
Qed.

(** X9.  What validation checks, exactly: [createCommand] returns the command
    object if and only if every command of the tree that requires a
    subcommand declares one and has at most one default subcommand, and
    every subcommand of the tree that disallows calling without a flag has a
    non-empty long or short flag, has a short flag and short-flag aliases
    that are each empty or one character long, and has a non-empty long
    (short) flag whenever it lists long (short) aliases. *)
Theorem createCommand_ok_iff_rules (root : CommandOptions) :
  createCommand root = Ok (mkCommandObject root)
  <-> (forall d, inTree root d -> commandRules d)
      /\ (forall s, subcommandIn root s -> subcommandRules s).
Proof.
  split.
  - intros H. apply createCommand_ok in H. destruct H as [Hv _]. split.
    + intros d Hd. apply commandRules_ok.
      pose proof (inTree_validates root d Hd Hv) as H.
      apply validateCommandDefinition_ok in H. destruct H as (H1 & H2 & _).
      now split.
    + intros s Hs. apply subcommandRules_ok.
      pose proof (subcommandIn_validates root s Hs Hv) as H.
      apply validateSubcommandDefinition_ok in H. exact (proj2 H).
  - intros [Hc Hs]. unfold createCommand, validateCommandOptions.
    now rewrite (rules_validate root Hc Hs).
Qed.

(** X10.  [createCommand] either returns a command object whose options are
    the options it was given, or throws a [ClapConfigurationError], of kind
    developer-induced; it throws nothing else. *)
Theorem createCommand_ok_or_configuration_error (root : CommandOptions) :
  createCommand root = Ok (mkCommandObject root)
  \/ exists msg,
       createCommand root = Throw (Clap (ClapConfigurationError msg))
       /\ kind (ClapConfigurationError msg) = DeveloperInduced
       /\ reason (ClapConfigurationError msg) = BadConfiguration.
Proof.
  unfold createCommand, validateCommandOptions.
  destruct (result_unit (validateCommandDefinition root)) as [[e E] | E].
  - right. destruct (configOnly_commandDefinition root e E) as [msg ->].
    exists msg. rewrite E. now repeat split.
  - left. now rewrite E.
Qed.

(** X11.  Validity is inherited: every command of a tree that [createCommand]
    accepts is itself accepted as the root of its own tree. *)
Theorem createCommand_subtree (root d : CommandDefinition) (c : Command) :
  createCommand root = Ok c ->
  inTree root d ->
  createCommand d = Ok (mkCommandObject d).
Proof.
  intros H Hd. apply createCommand_ok in H. destruct H as [Hv _].
  unfold createCommand, validateCommandOptions.
  now rewrite (inTree_validates root d Hd Hv).
Qed.

Lemma createCommand_subtree_witness :
  createCommand bundled = Ok (mkCommandObject bundled)
  /\ inTree bundled subB
  /\ createCommand subB = Ok (mkCommandObject subB).
Proof.
  assert (C : createCommand bundled = Ok (mkCommandObject bundled))
    by reflexivity.
  assert (T : inTree bundled subB).
  { apply (inTree_sub bundled subA subB); [cbn; auto |].
    apply (inTree_sub subA subB subB); [cbn; auto | apply inTree_here]. }
  split; [exact C | split; [exact T |]].
  exact (createCommand_subtree bundled subB (mkCommandObject bundled) C T).
Defined.

Lemma fails_inTree (root d : CommandDefinition) (e : Exn) :
  inTree root d ->
  validateCommandDefinition d = Throw e ->
  exists msg, createCommand root = Throw (Clap (ClapConfigurationError msg)).
Proof.
  intros Hd He. destruct (invalid_inTree root d Hd) as [msg H].
  - rewrite He. intros X; discriminate X.
  - exists msg. now apply createCommand_throw.
Qed.

Lemma fails_subcommandIn (root : CommandDefinition) (s : SubcommandDefinition) :
  subcommandIn root s ->
  validateSubcommandOwn s <> Ok tt ->
  exists msg, createCommand root = Throw (Clap (ClapConfigurationError msg)).
Proof.
  intros Hs Hbad. destruct (invalid_subcommandIn root s Hs) as [msg H].
  - intros X. apply validateSubcommandDefinition_ok in X. exact (Hbad (proj2 X)).
  - exists msg. now apply createCommand_throw.
Qed.

(** X12.  A command anywhere in the tree that requires a subcommand and
    declares none makes [createCommand] throw a configuration error; the
    error is the one that names this command whenever the depth-first walk
    reaches the command without meeting another violation first (the check
    is the first one run on a command, so for the root always). *)
Theorem subcommand_required_without_subcommands (root d : CommandDefinition) :
  inTree root d ->
  subcommandRequired d = true ->
  subcommands d = [] ->
  (exists msg, createCommand root = Throw (Clap (ClapConfigurationError msg)))
  /\ (walksTo root d ->
      createCommand root
      = Throw (Clap (ClapConfigurationError
                       (subcommandRequiredMessage (name d))))).
Proof.
  intros Hd Hreq Hsubs.
  assert (E : validateCommandDefinition d
              = configurationError (subcommandRequiredMessage (name d))).
  { rewrite validateCommandDefinition_eq. unfold validateSubcommandRequired.
    now rewrite Hreq, Hsubs. }
  split; [exact (fails_inTree root d _ Hd E) |].
  intros Hwalk. apply createCommand_throw.
  exact (walksTo_throw root d _ Hwalk E).
Qed.

Lemma subcommand_required_without_subcommands_witness :
  inTree (plain "app" [build; needsSub]) needsSub
  /\ subcommandRequired needsSub = true
  /\ subcommands needsSub = []
  /\ createCommand (plain "app" [build; needsSub])
     = Throw (Clap (ClapConfigurationError (subcommandRequiredMessage "sub"))).
Proof.
  assert (T : inTree (plain "app" [build; needsSub]) needsSub).
  { apply (inTree_sub _ needsSub needsSub); [cbn; auto | apply inTree_here]. }
  split; [exact T | split; [reflexivity | split; [reflexivity |]]].
  apply (proj2 (subcommand_required_without_subcommands
                  (plain "app" [build; needsSub]) needsSub T eq_refl eq_refl)).
  apply (walksTo_sub (plain "app" [build; needsSub]) [build] needsSub []
                     needsSub);
    [reflexivity | reflexivity | reflexivity | | apply walksTo_here].
  repeat constructor.
Defined.

(** X13.  A subcommand anywhere in the tree that disallows calling without a
    flag while neither its long flag nor its short flag is a non-empty string
    makes [createCommand] throw a configuration error; the error is the one
    that names this subcommand whenever the walk reaches the subcommand and
    its subtree validates. *)
Theorem disallow_without_flag_needs_flag (root : CommandDefinition)
  (s : SubcommandDefinition) :
  subcommandIn root s ->
  disallowWithoutFlag s = true ->
  Js.truthy (longFlag s) = false ->
  Js.truthy (shortFlag s) = false ->
  (exists msg, createCommand root = Throw (Clap (ClapConfigurationError msg)))
  /\ (walksToSubcommand root s ->
      validateCommandDefinition s = Ok tt ->
      createCommand root
      = Throw (Clap (ClapConfigurationError
                       (disallowWithoutFlagMessage (name s))))).
Proof.
  intros Hs Hdis Hl Hsh.
  assert (E : validateSubcommandOwn s
              = configurationError (disallowWithoutFlagMessage (name s))).
  { unfold validateSubcommandOwn, validateDisallowWithoutFlag.
    now rewrite Hdis, Hl, Hsh. }
  split.
  - apply (fails_subcommandIn root s Hs). rewrite E. intros X; discriminate X.
  - intros Hwalk Hsub. apply createCommand_throw.
    apply (walksToSubcommand_throw root s _ Hwalk).
    unfold validateSubcommandDefinition. now rewrite Hsub.
Qed.

Lemma disallow_without_flag_needs_flag_witness :
  subcommandIn (plain "app" [flagless]) flagless
  /\ disallowWithoutFlag flagless = true
  /\ Js.truthy (longFlag flagless) = false
  /\ Js.truthy (shortFlag flagless) = false
  /\ createCommand (plain "app" [flagless])
     = Throw (Clap (ClapConfigurationError (disallowWithoutFlagMessage "s"))).
Proof.
  assert (T : subcommandIn (plain "app" [flagless]) flagless).
  { exists (plain "app" [flagless]). split; [apply inTree_here | cbn; auto]. }
  split; [exact T |]. repeat (split; [reflexivity |]).
  apply (proj2 (disallow_without_flag_needs_flag (plain "app" [flagless])
                  flagless T eq_refl eq_refl eq_refl)); [| reflexivity].
  exists (plain "app" [flagless]), [], [].
  repeat split; [apply walksTo_here | constructor].
Defined.

(** X14.  A subcommand anywhere in the tree that lists long (short) flag
    aliases while its long (short) flag is not a non-empty string makes
    [createCommand] throw a configuration error; the error is the one that
    names this subcommand and the kind of flag whenever the walk reaches that
    check without meeting another violation first. *)
Theorem aliases_need_their_flag (root : CommandDefinition)
  (s : SubcommandDefinition) (t : FlagType) :
  subcommandIn root s ->
  flagAliasesOf t s <> [] ->
  Js.truthy (flagOf t s) = false ->
  (exists msg, createCommand root = Throw (Clap (ClapConfigurationError msg)))
  /\ (reachesAliasesWithoutFlagCheck root s t ->
      createCommand root
      = Throw (Clap (ClapConfigurationError
                       (flagAliasesWithoutFlagMessage (name s) t)))).
Proof.
  intros Hs Hal Hflag.
  assert (E : validateFlagAliasesWithoutFlag s t
              = configurationError (flagAliasesWithoutFlagMessage (name s) t)).
  { unfold validateFlagAliasesWithoutFlag. rewrite Hflag.
    destruct (flagAliasesOf t s); [now elim Hal | reflexivity]. }
  split.
  - apply (fails_subcommandIn root s Hs). intros X.
    apply subcommandRules_ok in X.
    destruct X as (_ & _ & _ & Hlong & Hshort).
    destruct t; cbn [flagAliasesOf flagOf] in Hal, Hflag;
      [rewrite (Hlong Hal) in Hflag | rewrite (Hshort Hal) in Hflag];
      discriminate Hflag.
  - intros ((Hwalk & Hsub & Hdis) & Hsf & Hsfa & Hlong).
    apply createCommand_throw, (walksToSubcommand_throw root s _ Hwalk).
    unfold validateSubcommandDefinition, validateSubcommandOwn.
    rewrite Hsub, Hdis, Hsf, Hsfa. cbn [Errors.bind].
    destruct t; [now rewrite E | now rewrite Hlong, E].
Qed.

Lemma aliases_need_their_flag_witness :
  subcommandIn (plain "app" [aliasOnly]) aliasOnly
  /\ flagAliasesOf short aliasOnly <> []
  /\ Js.truthy (flagOf short aliasOnly) = false
  /\ createCommand (plain "app" [aliasOnly])
     = Throw (Clap (ClapConfigurationError
                      (flagAliasesWithoutFlagMessage "s" short))).
Proof.
  assert (T : subcommandIn (plain "app" [aliasOnly]) aliasOnly).
  { exists (plain "app" [aliasOnly]). split; [apply inTree_here | cbn; auto]. }
  assert (A : flagAliasesOf short aliasOnly <> []) by discriminate.
  split; [exact T | split; [exact A | split; [reflexivity |]]].
  apply (proj2 (aliases_need_their_flag (plain "app" [aliasOnly]) aliasOnly
                  short T A eq_refl)).
  repeat split.
  exists (plain "app" [aliasOnly]), [], [].
  repeat split; [apply walksTo_here | constructor].
Defined.

End ValidateLaws.

(* ================================================================= *)
(** * Further properties of subcommand matching and of [handle] *)

Module CommandLaws.

Import Spec Behaviour Examples Samples ArgsFacts QueryFacts ValidateFacts
       CommandFacts.

Lemma matchLoop_some (subs : list SubcommandDefinition) (arg : ParsedArgument)
  (r : Result Match) :
  matchLoop subs arg = Some r ->
  exists before s after,
    subs = before ++ s :: after
    /\ Forall (fun p => matchOne p arg = None) before
    /\ matchOne s arg = Some r.
Proof.
  induction subs as [| x rest IH]; cbn [matchLoop]; [intros X; discriminate X |].
  destruct (matchOne x arg) as [r' |] eqn:E.
  - intros H. injection H as <-. exists [], x, rest.
    repeat split; [constructor | exact E].
  - intros H. destruct (IH H) as (before & s & after & -> & Hb & Hs).
    exists (x :: before), s, after. repeat split; [now constructor | exact Hs].
Qed.

Lemma matchLoop_none (subs : list SubcommandDefinition) (arg : ParsedArgument) :
  (forall x, In x subs -> matchOne x arg = None) ->
  matchLoop subs arg = None.
Proof.
  induction subs as [| x rest IH]; intros H; cbn [matchLoop]; [reflexivity |].
  rewrite (H x) by now left. apply IH. intros y Hy. apply H. now right.
Qed.

Lemma matchOne_short_b (s : SubcommandDefinition) (sh : string) :
  matchOne s (Short sh)
  = if shortSelectsb s sh
    then Some (Ok (mkMatch (Some s)
                     (if (String.length sh =? 2)%nat then None
                      else Some (Short ("-" ++ Js.substringFrom sh 2)))))
    else None.
Proof.
  unfold matchOne, shortSelectsb.
  destruct (shortFlag s) as [f |]; [| reflexivity].
  destruct (existsb _ _); [| reflexivity].
  destruct (String.length sh =? 2)%nat; reflexivity.
Qed.

Lemma shortSelectsb_first (s : SubcommandDefinition) (sh : string) :
  shortSelectsb s sh = true ->
  exists x c rest, sh = String x (String c rest).
Proof.
  unfold shortSelectsb. destruct (shortFlag s) as [f |]; [| intros X; discriminate X].
  intros H. apply existsb_exists in H. destruct H as (y & _ & H).
  unfold isFirstShortFlag, Js.charAt in H.
  destruct sh as [| x [| c rest]]; cbn [String.get] in H; try discriminate H.
  now exists x, c, rest.
Qed.

Lemma substringFrom_2 (x c : ascii) (rest : string) :
  Js.substringFrom (String x (String c rest)) 2 = rest.
Proof. unfold Js.substringFrom. apply js_substring_from_2. Qed.

(** What one subcommand's three tests can give. *)
Lemma matchOne_ok (s : SubcommandDefinition) (arg : ParsedArgument) (m : Match) :
  matchOne s arg = Some (Ok m) ->
  sub m = Some s
  /\ (nextArg m = None
      \/ exists sh sh',
           arg = Short sh /\ nextArg m = Some (Short sh')
           /\ String.length sh' + 1 = String.length sh).
Proof.
  destruct arg as [t | l a | sh |].
  - cbn [matchOne]. destruct (_ && _); intros H; [| discriminate H].
    injection H as <-. split; [reflexivity | now left].
  - rewrite matchOne_long. destruct (longSelectsb s l); [| intros X; discriminate X].
    destruct a; cbn [longOutcome]; intros H; [discriminate H |].
    injection H as <-. split; [reflexivity | now left].
  - rewrite matchOne_short_b.
    destruct (shortSelectsb s sh) eqn:E; [| intros X; discriminate X].
    destruct (shortSelectsb_first s sh E) as (x & c & rest & ->).
    destruct (String.length (String x (String c rest)) =? 2)%nat;
      intros H; injection H as <-; (split; [reflexivity |]); [now left |].
    right. eexists _, _. split; [reflexivity | split; [reflexivity |]].
    rewrite substringFrom_2. cbn. lia.
  - intros X; discriminate X.
Qed.

(** X15.  What [matchSubcommand] can return.  A selected subcommand is always
    one the command declares; when none is selected, the argument is handed
    back unchanged and the command has no default subcommand.  The next
    argument is absent, or the argument itself, or a bundle exactly one
    character shorter than the bundle that was given. *)
Theorem matchSubcommand_result (command : CommandDefinition)
  (arg : ParsedArgument) (m : Match) :
  matchSubcommand command arg = Ok m ->
  match sub m with
  | Some s => In s (subcommands command)
  | None =>
      nextArg m = Some arg
      /\ forall s, In s (subcommands command) -> isDefault s = false
  end
  /\ (nextArg m = None
      \/ nextArg m = Some arg
      \/ exists sh sh',
           arg = Short sh /\ nextArg m = Some (Short sh')
           /\ String.length sh' + 1 = String.length sh).
Proof.
  unfold matchSubcommand.
  destruct (matchLoop (subcommands command) arg) as [r |] eqn:E.
  - intros ->.
    destruct (matchLoop_some _ _ _ E) as (before & s & after & Hsubs & _ & Hs).
    destruct (matchOne_ok s arg m Hs) as [-> Hnext].
    split; [rewrite Hsubs; apply in_elt |].
    destruct Hnext as [H | H]; [now left | right; now right].
  - destruct (find isDefault (subcommands command)) as [s |] eqn:F;
      intros H; injection H as <-; cbn [sub nextArg].
    + split; [exact (proj1 (find_some _ _ F)) | right; now left].
    + split; [| right; now left].
      split; [reflexivity |]. intros s Hs. exact (find_none _ _ F s Hs).
Qed.

Lemma matchSubcommand_result_witness :
  matchSubcommand bundled (Short "-ab")
  = Ok (mkMatch (Some subA) (Some (Short "-b")))
  /\ In subA (subcommands bundled).
Proof.
  assert (E : matchSubcommand bundled (Short "-ab")
              = Ok (mkMatch (Some subA) (Some (Short "-b")))) by reflexivity.
  split; [exact E |].
  exact (proj1 (matchSubcommand_result bundled (Short "-ab") _ E)).
Defined.

(** ** Text tokens *)

Lemma textSelectsb_true (s : SubcommandDefinition) (t : string) :
  textSelectsb s t = true <-> textSelects s t.
Proof.
  unfold textSelectsb, textSelects.
  rewrite andb_true_iff, negb_true_iff, String.eqb_eq.
  split; intros [H1 H2]; split; congruence.
Qed.

Lemma textSelectsb_false (s : SubcommandDefinition) (t : string) :
  textSelectsb s t = false <-> ~ textSelects s t.
Proof.
  rewrite <- textSelectsb_true. destruct (textSelectsb s t); split; congruence.
Qed.

Lemma matchLoop_text (subs : list SubcommandDefinition) (t : string) :
  matchLoop subs (Text t)
  = match find (fun s => textSelectsb s t) subs with
    | Some s => Some (Ok (mkMatch (Some s) None))
    | None => None
    end.
Proof.
  induction subs as [| s rest IH]; cbn [matchLoop find matchOne]; [reflexivity |].
  fold (textSelectsb s t). destruct (textSelectsb s t); [reflexivity | exact IH].
Qed.

(** X16.  A text token that is the name of a declared subcommand not marked
    [disallowWithoutFlag] selects the first such subcommand in declaration
    order, consumes the token (no next argument) and does not throw. *)
Theorem text_selects_by_name (command : CommandDefinition)
  (s : SubcommandDefinition) (t : string) :
  In s (subcommands command) ->
  textSelects s t ->
  exists s' before after,
    subcommands command = before ++ s' :: after
    /\ textSelects s' t
    /\ Forall (fun p => ~ textSelects p t) before
    /\ matchSubcommand command (Text t) = Ok (mkMatch (Some s') None).
Proof.
  intros Hin Hsel. unfold matchSubcommand. rewrite matchLoop_text.
  destruct (find (fun x => textSelectsb x t) (subcommands command))
    as [s' |] eqn:F.
  - destruct (find_split _ _ _ F) as (before & after & Hsubs & Hs' & Hb).
    exists s', before, after.
    split; [exact Hsubs | split; [now apply textSelectsb_true |]].
    split; [| reflexivity].
    eapply Forall_impl; [| exact Hb]. intros p. apply textSelectsb_false.
  - apply (find_none _ _ F) in Hin. cbn in Hin.
    apply textSelectsb_true in Hsel. congruence.
Qed.

Lemma text_selects_by_name_witness :
  In testSub (subcommands tool)
  /\ textSelects testSub "test"
  /\ exists s' before after,
       subcommands tool = before ++ s' :: after
       /\ textSelects s' "test"
       /\ Forall (fun p => ~ textSelects p "test") before
       /\ matchSubcommand tool (Text "test") = Ok (mkMatch (Some s') None).
Proof.
  assert (I : In testSub (subcommands tool)) by (cbn; auto).
  assert (S : textSelects testSub "test") by (split; reflexivity).
  split; [exact I | split; [exact S |]].
  exact (text_selects_by_name tool testSub "test" I S).
Defined.

(** X17.  A text token selects by name only: when no declared subcommand
    that allows calling without a flag has the token as its name, the result
    is the fall-back (the default subcommand if there is one, else no
    subcommand) with the token handed back as next argument.  In particular
    the [alias] list of a subcommand is never consulted, and a subcommand
    marked [disallowWithoutFlag] is never selected by its name. *)
Theorem text_without_name_falls_back (command : CommandDefinition) (t : string) :
  (forall s, In s (subcommands command) -> ~ textSelects s t) ->
  matchSubcommand command (Text t) = Ok (fallback command (Text t)).
Proof.
  intros H. unfold matchSubcommand, fallback. rewrite matchLoop_text.
  destruct (find (fun x => textSelectsb x t) (subcommands command))
    as [s' |] eqn:F.
  - destruct (find_some _ _ F) as [Hin Hs'].
    apply textSelectsb_true in Hs'. elim (H s' Hin Hs').
  - destruct (find isDefault (subcommands command)); reflexivity.
Qed.

Lemma text_without_name_falls_back_witness :
  (forall s, In s (subcommands tool) -> ~ textSelects s "t")
  /\ alias testSub = ["t"]
  /\ matchSubcommand tool (Text "t")
     = Ok (mkMatch (Some runSub) (Some (Text "t"))).
Proof.
  assert (N : forall s, In s (subcommands tool) -> ~ textSelects s "t").
  { intros s [<- | [<- | []]] [E _]; discriminate E. }
  split; [exact N | split; [reflexivity |]].
  exact (text_without_name_falls_back tool "t" N).
Defined.

(** ** The default subcommand *)

Lemma find_unique {A : Type} (p : A -> bool) (xs : list A) (x : A) :
  List.length (filter p xs) <= 1 ->
  In x xs -> p x = true ->
  find p xs = Some x.
Proof.
  induction xs as [| a rest IH]; intros Hlen Hin Hx; [destruct Hin |].
  cbn [filter find] in *. destruct (p a) eqn:E.
  - destruct Hin as [-> | Hin]; [reflexivity |].
    assert (Hf : In x (filter p rest)) by (apply filter_In; now split).
    destruct (filter p rest); [destruct Hf | cbn in Hlen; lia].
  - destruct Hin as [-> | Hin]; [congruence | now apply IH].
Qed.

Lemma existsb_isFirstShortFlag_dash (l : list string) :
  existsb (isFirstShortFlag "-") l = false.
Proof. induction l as [| x rest IH]; cbn; [reflexivity | exact IH]. Qed.

Lemma matchOne_bare_dash (s : SubcommandDefinition) :
  matchOne s (Short "-") = None.
Proof.
  rewrite matchOne_short_b. unfold shortSelectsb.
  destruct (shortFlag s); [| reflexivity].
  now rewrite existsb_isFirstShortFlag_dash.
Qed.

(** X18.  The default subcommand of a validated tree: when no declared
    subcommand matches the token by name or by flag, [matchSubcommand]
    returns the subcommand marked [isDefault] (validation made it the only
    one) and hands the token back unconsumed.  The end-of-options token and
    the bare dash never match by name or flag, so they always go to the
    default. *)
Theorem default_subcommand_takes_unmatched (root : CommandOptions)
  (c : Command) (command : CommandDefinition) (s : SubcommandDefinition) :
  createCommand root = Ok c ->
  inTree root command ->
  In s (subcommands command) ->
  isDefault s = true ->
  (forall arg,
      (forall x, In x (subcommands command) -> matchOne x arg = None) ->
      matchSubcommand command arg = Ok (mkMatch (Some s) (Some arg)))
  /\ matchSubcommand command EndOfOptions
     = Ok (mkMatch (Some s) (Some EndOfOptions))
  /\ matchSubcommand command (Short "-")
     = Ok (mkMatch (Some s) (Some (Short "-"))).
Proof.
  intros Hc Htree Hin Hdef.
  apply createCommand_ok in Hc. destruct Hc as [Hv _].
  pose proof (inTree_validates root command Htree Hv) as Hcmd.
  apply validateCommandDefinition_ok in Hcmd. destruct Hcmd as (_ & Hmd & _).
  assert (Hlen : List.length (filter isDefault (subcommands command)) <= 1).
  { unfold validateMultipleDefault, defaultNames in Hmd.
    rewrite length_map in Hmd.
    destruct (Nat.ltb_spec 1 (List.length (filter isDefault (subcommands command))));
      [discriminate Hmd | lia]. }
  assert (G : forall arg,
             (forall x, In x (subcommands command) -> matchOne x arg = None) ->
             matchSubcommand command arg = Ok (mkMatch (Some s) (Some arg))).
  { intros arg Hnone. unfold matchSubcommand.
    rewrite (matchLoop_none _ _ Hnone).
    now rewrite (find_unique isDefault _ s Hlen Hin Hdef). }
  split; [exact G | split; apply G; intros x _].
  - reflexivity.
  - apply matchOne_bare_dash.
Qed.

Lemma default_subcommand_takes_unmatched_witness :
  createCommand tool = Ok (mkCommandObject tool)
  /\ inTree tool tool
  /\ In runSub (subcommands tool)
  /\ isDefault runSub = true
  /\ matchSubcommand tool EndOfOptions
     = Ok (mkMatch (Some runSub) (Some EndOfOptions)).
Proof.
  assert (C : createCommand tool = Ok (mkCommandObject tool)) by reflexivity.
  assert (T : inTree tool tool) by apply inTree_here.
  assert (I : In runSub (subcommands tool)) by (cbn; auto).
  split; [exact C | split; [exact T | split; [exact I | split; [reflexivity |]]]].
  exact (proj1 (proj2 (default_subcommand_takes_unmatched
                         tool (mkCommandObject tool) tool runSub C T I eq_refl))).
Defined.

(** ** Short-flag bundles *)

Lemma isFirstShortFlag_bundle (c : ascii) (rest x : string) :
  isFirstShortFlag (bundle c rest) x = String.eqb x (String c EmptyString).
Proof. reflexivity. Qed.

Lemma shortSelectsb_sound (s : SubcommandDefinition) (c : ascii) (rest : string) :
  shortSelectsb s (bundle c rest) = true -> shortSelects s c.
Proof.
  unfold shortSelectsb, shortSelects.
  destruct (shortFlag s) as [f |]; [| intros X; discriminate X].
  cbn [existsb]. rewrite orb_true_iff, existsb_exists.
  intros [H | (e & Hin & H)]; rewrite isFirstShortFlag_bundle in H;
    apply String.eqb_eq in H; subst.
  - now left.
  - now right.
Qed.

Lemma shortSelectsb_complete (s : SubcommandDefinition) (c : ascii)
  (rest : string) :
  validateSubcommandDefinition s = Ok tt ->
  shortSelects s c -> shortSelectsb s (bundle c rest) = true.
Proof.
  intros Hv Hsel.
  apply validateSubcommandDefinition_ok in Hv. destruct Hv as [_ Hv].
  apply ValidateLaws.subcommandRules_ok in Hv.
  destruct Hv as (_ & _ & _ & _ & Hshort).
  unfold shortSelectsb. destruct Hsel as [H | H].
  - rewrite H. cbn [existsb]. rewrite isFirstShortFlag_bundle.
    now rewrite String.eqb_refl.
  - assert (T : Js.truthy (shortFlag s) = true).
    { apply Hshort. intros E. rewrite E in H. destruct H. }
    destruct (shortFlag s) as [f |]; [| discriminate T].
    cbn [existsb]. apply orb_true_iff. right.
    apply existsb_exists. exists (String c EmptyString).
    split; [exact H |]. rewrite isFirstShortFlag_bundle. apply String.eqb_refl.
Qed.

Lemma matchOne_bundle (s : SubcommandDefinition) (c : ascii) (rest : string) :
  matchOne s (Short (bundle c rest))
  = if shortSelectsb s (bundle c rest)
    then Some (Ok (mkMatch (Some s) (remainder rest)))
    else None.
Proof.
  rewrite matchOne_short_b.
  destruct (shortSelectsb s (bundle c rest)); [| reflexivity].
  unfold bundle. rewrite substringFrom_2.
  destruct rest; reflexivity.
Qed.

Lemma matchLoop_bundle (subs : list SubcommandDefinition) (c : ascii)
  (rest : string) :
  matchLoop subs (Short (bundle c rest))
  = match find (fun s => shortSelectsb s (bundle c rest)) subs with
    | Some s => Some (Ok (mkMatch (Some s) (remainder rest)))
    | None => None
    end.
Proof.
  induction subs as [| s tl IH]; cbn [matchLoop find]; [reflexivity |].
  rewrite matchOne_bundle.
  destruct (shortSelectsb s (bundle c rest)); [reflexivity | exact IH].
Qed.

(** X19.  In a validated tree, a bundle whose first letter is the short flag
    or a short-flag alias of a declared subcommand selects the first such
    subcommand in declaration order and never throws; a one-letter bundle is
    consumed whole, a longer one hands back the bundle of the remaining
    letters as next argument. *)
Theorem short_bundle_selects (root : CommandOptions) (c : Command)
  (command : CommandDefinition) (s : SubcommandDefinition) (ch : ascii)
  (rest : string) :
  createCommand root = Ok c ->
  inTree root command ->
  In s (subcommands command) ->
  shortSelects s ch ->
  exists s' before after,
    subcommands command = before ++ s' :: after
    /\ shortSelects s' ch
    /\ Forall (fun p => ~ shortSelects p ch) before
    /\ matchSubcommand command (Short (bundle ch rest))
       = Ok (mkMatch (Some s') (remainder rest)).
Proof.
  intros Hc Htree Hin Hsel.
  apply createCommand_ok in Hc. destruct Hc as [Hv _].
  pose proof (inTree_validates root command Htree Hv) as Hcmd.
  apply validateCommandDefinition_ok in Hcmd. destruct Hcmd as (_ & _ & Hsubs).
  rewrite Forall_forall in Hsubs.
  assert (Hb : shortSelectsb s (bundle ch rest) = true)
    by (apply shortSelectsb_complete; [now apply Hsubs | exact Hsel]).
  unfold matchSubcommand. rewrite matchLoop_bundle.
  destruct (find (fun x => shortSelectsb x (bundle ch rest)) (subcommands command))
    as [s' |] eqn:F.
  - destruct (find_split _ _ _ F) as (before & after & Hsplit & Hs' & Hpre).
    exists s', before, after.
    split; [exact Hsplit | split; [exact (shortSelectsb_sound s' ch rest Hs') |]].
    split; [| reflexivity].
    apply Forall_forall. intros p Hp Hpsel.
    rewrite Forall_forall in Hpre. specialize (Hpre p Hp). cbn in Hpre.
    rewrite shortSelectsb_complete in Hpre; [discriminate Hpre | | exact Hpsel].
    apply Hsubs. rewrite Hsplit. apply in_or_app. now left.
  - apply (find_none _ _ F) in Hin. cbn in Hin. congruence.
Qed.

Lemma short_bundle_selects_witness :
  createCommand tool = Ok (mkCommandObject tool)
  /\ inTree tool tool
  /\ In testSub (subcommands tool)
  /\ shortSelects testSub "T"%char
  /\ exists s' before after,
       subcommands tool = before ++ s' :: after
       /\ shortSelects s' "T"%char
       /\ Forall (fun p => ~ shortSelects p "T"%char) before
       /\ matchSubcommand tool (Short "-Tv")
          = Ok (mkMatch (Some s') (Some (Short "-v"))).
Proof.
  assert (C : createCommand tool = Ok (mkCommandObject tool)) by reflexivity.
  assert (T : inTree tool tool) by apply inTree_here.
  assert (I : In testSub (subcommands tool)) by (cbn; auto).
  assert (S : shortSelects testSub "T"%char) by (right; cbn; auto).
  split; [exact C | split; [exact T | split; [exact I | split; [exact S |]]]].
  exact (short_bundle_selects tool (mkCommandObject tool) tool testSub
           "T"%char "v" C T I S).
Defined.

(** ** [handle] on raw arguments *)

(** X20.  [handle] looks at the first argument only: called on a non-empty
    raw argument list it does, for every log of invoked callbacks, exactly
    what it does on the list of the first argument alone. *)
Theorem handle_reads_first_argument_only (c : Command) (x : string)
  (rest : list string) (log : Log) :
  handle c (inr (x :: rest)) log = handle c (inr [x]) log.
Proof.
  unfold handle. rewrite !parseArguments_tokenize. cbn [tokenize].
  now rewrite !handleLoop_cons.
Qed.

End CommandLaws.
